(** * The remote-module resolver plugin of niht-chef

    The bundler front-end ships one piece of logic of its own: the [http()]
    plugin, which rewrites [http(s)://] import specifiers to short virtual
    module ids and fetches their text when the bundler asks for it.  The
    plugin exists twice, in [src/index.js] and in the second source file of
    the repository ([src/unnamed/part_000]).

    This development embeds both copies and proves the properties the
    specification states about them.  It then embeds the rest of the two
    files (the options [compile] builds for the bundler, [tsc], [minify],
    [resolveUrls] and [run]) and proves further properties of the plugin
    and of these functions. *)

From Stdlib Require Import ZArith String Ascii List Bool Lia DecimalString.
From stdpp Require Import gmap strings list fin_maps.

Local Open Scope string_scope.
Local Open Scope Z_scope.

(* stdpp keeps [simpl] from unfolding string concatenation; the proofs below
   compute with it. *)
#[local] Arguments String.append !_ _ / : simpl nomatch.

(** ** The JavaScript string primitives the plugin calls

    Specifiers are modelled as [string], a sequence of 8-bit characters.
    The plugin only ever compares characters with the literals ['/'], ['.']
    and the letters of the scheme prefix, so nothing depends on the width
    of a character. *)

Module Js.

(** [s.lastIndexOf(c)] for a one-character search string: the index of the
    last occurrence, [-1] when there is none. *)
Fixpoint lastIndexOf_from (c : ascii) (s : string) (i : Z) (found : Z) : Z :=
  match s with
  | EmptyString => found
  | String a s' =>
      lastIndexOf_from c s' (i + 1) (if Ascii.eqb a c then i else found)
  end.

Definition lastIndexOf (s : string) (c : ascii) : Z :=
  lastIndexOf_from c s 0 (-1).

Fixpoint drop (n : nat) (s : string) : string :=
  match n, s with
  | O, _ => s
  | S _, EmptyString => EmptyString
  | S n', String _ s' => drop n' s'
  end.

(** [s.substr(start)] without a length: a negative start counts from the
    end (clamped at 0), a start beyond the end gives the empty string. *)
Definition substr (s : string) (start : Z) : string :=
  let len := Z.of_nat (String.length s) in
  let from := if start <? 0 then Z.max (len + start) 0 else Z.min start len in
  drop (Z.to_nat from) s.

(** [s.split(c)] for a one-character separator.  The result always has at
    least one element: [""] splits to [[""]]. *)
Fixpoint split (s : string) (sep : ascii) : list string :=
  match s with
  | EmptyString => [EmptyString]
  | String a s' =>
      if Ascii.eqb a sep then EmptyString :: split s' sep
      else match split s' sep with
           | [] => [String a EmptyString]
           | piece :: pieces => String a piece :: pieces
           end
  end.

(** [arr.shift()]: the first element, [undefined] on an empty array. *)
Definition shift (arr : list string) : option string :=
  match arr with
  | [] => None
  | x :: _ => Some x
  end.

(** [s] starts with [p] and [rest] is what follows. *)
Fixpoint eat (p s : string) : option string :=
  match p, s with
  | EmptyString, _ => Some s
  | String a p', String b s' => if Ascii.eqb a b then eat p' s' else None
  | String _ _, EmptyString => None
  end.

(** [ToBoolean] of a value that is a string or [undefined]: only a
    non-empty string is truthy. *)
Definition truthy (v : option string) : bool :=
  match v with
  | Some (String _ _) => true
  | _ => false
  end.

(** [a || b] on such values. *)
Definition or (a b : option string) : option string :=
  if truthy a then a else b.

(** [arr.join(sep)] on an array of strings; this is also what a template
    literal makes of such an array, with [","] for [sep]. *)
Fixpoint join (arr : list string) (sep : string) : string :=
  match arr with
  | [] => ""
  | x :: rest =>
      match rest with
      | [] => x
      | _ :: _ => x +:+ sep +:+ join rest sep
      end
  end.

(** [arr.filter(Boolean)] on an array whose elements are objects or
    [false]. *)
Definition filter_Boolean {A : Type} (arr : list (option A)) : list A :=
  omap id arr.

(** [a || "literal"]: the literal is a non-empty string, so the result is
    a string. *)
Definition or_default (a : option string) (literal : string) : string :=
  match a with
  | Some (String _ _ as s) => s
  | _ => literal
  end.

End Js.

(** ** Data model *)

(** The Identifier Record [{ isHttps, url }]. *)
Record record := { isHttps : bool; url : string }.

(** The two clients of [follow-redirects]. *)
Inductive client := http_client | https_client.

(** One call [client.get(url, callback)]. *)
Record request := { via : client; target : string }.

(** The promise [load] returns: it resolves with the text of the response to
    the request, once the response has ended. *)
Inductive promise := body_of (r : request).

(** What one plugin instance acts on: its own table [urls] (the [Map] in the
    closure of [http()]) and the requests it has put on the network so far,
    oldest first. *)
Record env := { urls : gmap string record; wire : list request }.

(** The state right after [http()] returns. *)
Definition fresh : env := {| urls := ∅; wire := [] |}.

#[global] Instance client_eq_dec : EqDecision client.
Proof. solve_decision. Defined.
#[global] Instance record_eq_dec : EqDecision record.
Proof. solve_decision. Defined.
#[global] Instance request_eq_dec : EqDecision request.
Proof. solve_decision. Defined.
#[global] Instance promise_eq_dec : EqDecision promise.
Proof. solve_decision. Defined.

(** The part of the bundler's plugin contract the resolver implements: the
    object [http()] returns has the two hooks [resolveId] and [load].  A
    hook answers [None] for [undefined] ("not handled by this plugin"). *)
Record Plugin := {
  hook_resolveId : env -> string -> option string * env;
  hook_load : env -> string -> option promise * env
}.

(** ** The command line, the package file and the options handed on

    [cli.flags] as [meow] hands it over: a flag that takes a value is absent
    ([undefined]) or a string, the two declared boolean flags are
    booleans. *)
Module Flags.
Record t := {
  name : option string;
  external : option string;
  e : option string;
  minify : bool;
  watch : bool;
  chunks : option string;
  exports : option string;
  output : option string;
  o : option string;
  out : option string;
  format : option string;
  f : option string
}.
End Flags.

(** JavaScript numbers, as far as the tool meets them: it writes the
    literals [9] and [10] and, in a [||], asks whether a number read from
    the package file is zero or [NaN]. *)
Class Numbers := {
  number : Type;
  number_of_Z : Z -> number;
  number_truthy : number -> bool
}.

(** A value read by [JSON.parse]. *)
#[local] Set Warnings "-register-all".
Inductive json `{Numbers} :=
| JNull
| JBool (b : bool)
| JNum (n : number)
| JStr (s : string)
| JArr (items : list json)
| JObj (members : gmap string json).

(** The [browser] field of a package file is a path or a replacement map. *)
Inductive browser_field := browser_file (path : string) | browser_map.

(** The fields of [package.json] the tool reads. *)
Module Pkg.
Record t `{Numbers} := {
  name : option string;
  source : option string;
  main : option string;
  module : option string;
  unpkg : option string;
  browser : option browser_field;
  minify : option json
}.
End Pkg.

(** An object the tool builds with [{}] and fills by assignment: its own
    properties, and its prototype when an assignment to [__proto__] has
    replaced [Object.prototype] ([None] while it has not). *)
Record object (V : Type) := { own : gmap string V; proto : option V }.
Arguments own {V} _.
Arguments proto {V} _.

Module Obj.

Definition empty {V : Type} : object V := {| own := ∅; proto := None |}.

(** [obj[key] = value] for a value that is itself an object.  The key
    [__proto__] reaches the setter of [Object.prototype], which swaps the
    prototype; every other key becomes an own property. *)
Definition set {V : Type} (key : string) (value : V) (obj : object V) : object V :=
  if String.eqb key "__proto__"
  then {| own := own obj; proto := Some value |}
  else {| own := <[key := value]> (own obj); proto := proto obj |}.

Section Json.
Context `{Numbers}.

(** [ToBoolean] of a parsed value or [undefined]. *)
Definition truthy (v : option json) : bool :=
  match v with
  | None | Some JNull => false
  | Some (JBool b) => b
  | Some (JNum n) => number_truthy n
  | Some (JStr s) => negb (String.eqb s "")
  | Some (JArr _) | Some (JObj _) => true
  end.

(** [v || {}]. *)
Definition or_empty (v : option json) : json :=
  match v with
  | Some x => if truthy v then x else JObj ∅
  | None => JObj ∅
  end.

(** [v.compress] and [v.mangle]: an own member of an object; [undefined]
    on every other value, none of whose wrappers or prototypes knows these
    two names. *)
Definition get (v : json) (key : string) : option json :=
  match v with
  | JObj members => members !! key
  | _ => None
  end.

Definition index_key (i : nat) : string :=
  NilZero.string_of_uint (Nat.to_uint i).

Fixpoint chars (s : string) : list json :=
  match s with
  | EmptyString => []
  | String c s' => JStr (String c EmptyString) :: chars s'
  end.

(** The own enumerable properties [Object.assign] copies from a source:
    the members of an object, the items of an array and the characters of
    a string under their indices, nothing from the other values. *)
Definition enumerable (source : json) : gmap string json :=
  match source with
  | JObj members => members
  | JArr items => list_to_map (imap (fun i x => (index_key i, x)) items)
  | JStr s => list_to_map (imap (fun i x => (index_key i, x)) (chars s))
  | _ => ∅
  end.

(** The [__proto__] setter takes objects and [null] and ignores the rest. *)
Definition is_prototype (v : json) : bool :=
  match v with
  | JObj _ | JArr _ | JNull => true
  | _ => false
  end.

(** [Object.assign(target, source)]: every own enumerable property of the
    source is assigned to the target.  The keys are distinct, so the order
    of the assignments does not show: the source wins on the keys it has,
    and an own member named [__proto__] goes to the setter instead of
    becoming a property. *)
Definition assign (target : object json) (source : json) : object json :=
  let props := enumerable source in
  {| own := delete "__proto__" props ∪ own target;
     proto := match props !! "__proto__" with
              | Some v => if is_prototype v then Some v else proto target
              | None => proto target
              end |}.

End Json.

End Obj.

(** What [tsc] passes to the TypeScript plugin. *)
Module TsOptions.
Record t := {
  cacheRoot : string;
  experimentalDecorators : bool;
  sourceMap : bool;
  declaration : bool;
  jsx : string;
  jsxFactory : string;
  tsconfig : string
}.
End TsOptions.

(** What [minify] passes to [terser]. *)
Module TerserOptions.
Record t `{Numbers} := {
  sourcemap : bool;
  compress : object json;
  warnings : bool;
  ecma : number;
  toplevel : bool;
  mangle : object json
}.
End TerserOptions.

(** The plugins of the pipeline, each with the options it is created
    with. *)
Inductive plugin_spec `{Numbers} :=
| json_plugin
| nodeResolve_plugin (jsnext main : bool) (browser : option bool)
| commonjs_plugin (include_node_modules : bool)
| globals_plugin
| builtins_plugin
| http_plugin
| typescript_plugin (options : TsOptions.t)
| terser_plugin (options : TerserOptions.t)
| urlResolve_plugin
| unpkg_plugin (transform : string -> string -> string)
               (autoDiscoverExternals : bool).

(** The options of [rollup(...)] and [watch(...)]; the constant
    [treeshake: { propertyReadSideEffects: false }] is left out. *)
Module ReadOptions.
Record t `{Numbers} := {
  input : option string;
  external : list string;
  manualChunks : option (object (list (option string)));
  plugins : list plugin_spec
}.
End ReadOptions.

(** The options of [bundle.write(...)]; a field is [None] when the
    property is missing or [undefined]. *)
Module WriteOptions.
Record t := {
  format : string;
  file : option string;
  dir : option string;
  exports : string;
  name : option string;
  chunkFileNames : option string
}.
End WriteOptions.

(** What one call of [compile] asks of the bundler: a watcher, or one
    bundle written once. *)
Record action `{Numbers} := {
  watching : bool;
  readOptions : ReadOptions.t;
  writeOptions : WriteOptions.t
}.

(** A call either returns or throws. *)
Inductive outcome (A : Type) := returns (a : A) | throws.
Arguments returns {A} _.
Arguments throws {A}.

(** How [run] ends: it showed the help text, it ran through, or a
    [compile] it awaited was rejected. *)
Inductive ending := showed_help | finished | rejected.

(** ** The plugin of [src/index.js] *)

Module IndexJs.

(** [httpExp.exec(id)] for [/^https?:\/\//]: the matched prefix [match[0]]
    or [None] for [null].  The regular expression has no flags, so it is
    anchored at the start of the string, is case sensitive and keeps no
    [lastIndex].  The optional [s] is tried first and given up when what
    follows is not [://]. *)
Definition httpExp_exec (id : string) : option string :=
  match Js.eat "http" id with
  | None => None
  | Some rest =>
      match
        match Js.eat "s" rest with
        | Some rest' => Js.eat "://" rest'
        | None => None
        end
      with
      | Some _ => Some "https://"
      | None =>
          match Js.eat "://" rest with
          | Some _ => Some "http://"
          | None => None
          end
      end
  end.

(** The inner [function load(url, isHttps)]: picks the client, calls
    [get] once inside the promise executor (which runs at once), and
    returns the promise. *)
Definition load (url : string) (isHttps : bool) (net : list request)
  : promise * list request :=
  let http := if isHttps then https_client else http_client in
  let r := {| via := http; target := url |} in
  (body_of r, (net ++ [r])%list).

Module plugin.

(** [resolveId(id)].  [Js.split] never returns an empty array
    (see [split_not_nil] below), so the last branch is never taken. *)
Definition resolveId (e : env) (id : string) : option string * env :=
  match httpExp_exec id with
  | Some m0 =>
      let record := {| isHttps := String.eqb m0 "https://"; url := id |} in
      let idx := Js.lastIndexOf id "/" in
      let pth := Js.substr id (idx + 1) in
      match Js.shift (Js.split pth ".") with
      | Some newId =>
          (Some newId, {| urls := <[newId := record]> (urls e); wire := wire e |})
      | None => (None, e)
      end
  | None => (None, e)
  end.

(** [load(id)]. *)
Definition load (e : env) (id : string) : option promise * env :=
  match urls e !! id with
  | Some {| url := url; isHttps := isHttps |} =>
      let '(p, net) := IndexJs.load url isHttps (wire e) in
      (Some p, {| urls := urls e; wire := net |})
  | None => (None, e)
  end.

End plugin.

(** The object [http()] returns. *)
Definition http : Plugin :=
  {| hook_resolveId := plugin.resolveId; hook_load := plugin.load |}.

(** *** The rest of [src/index.js]: building the bundler's options

    The module-level constants [cli] and [pkg] and the two functions of
    Node the tool calls are fixed for one run of the tool. *)

Definition nodeExternals : list string :=
  ["url"; "http"; "util"; "https"; "zlib"; "stream"; "path"; "crypto";
   "buffer"; "string_decoder"; "querystring"; "punycode"; "child_process";
   "events"].

Section Tool.
Context `{Numbers}.

(** [path.extname]. *)
Variable extname : string -> string.
(** [fs.lstatSync(p).isDirectory()], [None] when [lstatSync] throws. *)
Variable isDirectory : string -> option bool.
(** [cli.flags], [cli.input] and [pkg]. *)
Variable cli_flags : Flags.t.
Variable cli_input : list string.
Variable pkg : Pkg.t.

(** [resolveUrls(outFormat)]; its call in [compile] is commented out. *)
Definition resolveUrls (outFormat : string) : plugin_spec :=
  if negb (String.eqb outFormat "es") then urlResolve_plugin
  else
    let transform := fun name version : string =>
      "https://cdn.pika.dev/" +:+ name +:+ "/v" +:+
      match version with
      | EmptyString => "undefined"
      | String c _ => String c EmptyString
      end in
    unpkg_plugin transform false.

(** [tsc(entry, format)]; [None] is [false]. *)
Definition tsc (entry format : string) : option TsOptions.t :=
  if String.eqb (extname entry) ".ts" || String.eqb (extname entry) ".tsx"
  then Some {| TsOptions.cacheRoot := "./node_modules/.cache/.rts2_cache_" +:+ format;
               TsOptions.experimentalDecorators := true;
               TsOptions.sourceMap := false;
               TsOptions.declaration := true;
               TsOptions.jsx := "react";
               TsOptions.jsxFactory := "h";
               TsOptions.tsconfig := "tsconfig.json" |}
  else None.

(** [minify(outFormat)]; [None] is [false]. *)
Definition minify (outFormat : string) : option TerserOptions.t :=
  if negb (Flags.minify cli_flags) then None
  else
    let minifyOptions := Obj.or_empty (Pkg.minify pkg) in
    Some {| TerserOptions.sourcemap := true;
            TerserOptions.compress :=
              Obj.assign
                {| own := {[ "keep_infinity" := JBool true;
                             "pure_getters" := JBool true;
                             "passes" := JNum (number_of_Z 10) ]};
                   proto := None |}
                (Obj.or_empty (Obj.get minifyOptions "compress"));
            TerserOptions.warnings := true;
            TerserOptions.ecma := number_of_Z 9;
            TerserOptions.toplevel :=
              String.eqb outFormat "cjs" || String.eqb outFormat "es";
            TerserOptions.mangle :=
              Obj.assign Obj.empty (Obj.or_empty (Obj.get minifyOptions "mangle")) |}.

(** [compile(source, outFile, outFormat)] up to the point where it hands
    over to the bundler.  The messages it prints are not modelled. *)
Definition compile (source outFile outFormat : string) : action :=
  let externals := [] in
  let isBuiltForNode := String.eqb outFormat "cjs" in
  let externals := if isBuiltForNode then nodeExternals else externals in
  let externalList := Js.or (Flags.external cli_flags) (Flags.e cli_flags) in
  let externals :=
    match externalList with
    | Some (String _ _ as list) => (externals ++ Js.split list ",")%list
    | _ => externals
    end in
  let chunks :=
    match Flags.chunks cli_flags with
    | Some (String _ _ as list) =>
        Some (fold_left
                (fun chunks chunk =>
                   match Js.split chunk "=" with
                   | [] => Obj.set "undefined" [None] chunks
                   | [name] => Obj.set name [None] chunks
                   | name :: entry :: _ => Obj.set name [Some entry] chunks
                   end)
                (Js.split list ",") Obj.empty)
    | _ => None
    end in
  let plugins :=
    Js.filter_Boolean
      [Some json_plugin;
       Some (nodeResolve_plugin true true (Some (String.eqb outFormat "es")));
       Some (commonjs_plugin true);
       Some globals_plugin;
       Some builtins_plugin;
       Some http_plugin;
       option_map typescript_plugin (tsc source outFormat);
       option_map terser_plugin (minify outFormat)] in
  let readOptions :=
    {| ReadOptions.input := Some source;
       ReadOptions.external := externals;
       ReadOptions.manualChunks := chunks;
       ReadOptions.plugins := plugins |} in
  let writeOptions :=
    {| WriteOptions.format := outFormat;
       WriteOptions.file := Some outFile;
       WriteOptions.dir := None;
       WriteOptions.exports := Js.or_default (Flags.exports cli_flags) "named";
       WriteOptions.name := None;
       WriteOptions.chunkFileNames := None |} in
  let writeOptions :=
    if Js.truthy (Flags.name cli_flags) || String.eqb outFormat "umd"
    then {| WriteOptions.format := WriteOptions.format writeOptions;
            WriteOptions.file := WriteOptions.file writeOptions;
            WriteOptions.dir := WriteOptions.dir writeOptions;
            WriteOptions.exports := WriteOptions.exports writeOptions;
            WriteOptions.name := Js.or (Flags.name cli_flags) (Pkg.name pkg);
            WriteOptions.chunkFileNames := WriteOptions.chunkFileNames writeOptions |}
    else writeOptions in
  let writeOptions :=
    match isDirectory outFile with
    | Some true =>
        {| WriteOptions.format := WriteOptions.format writeOptions;
           WriteOptions.file := None;
           WriteOptions.dir := Some outFile;
           WriteOptions.exports := WriteOptions.exports writeOptions;
           WriteOptions.name := WriteOptions.name writeOptions;
           WriteOptions.chunkFileNames :=
             match chunks with
             | Some _ => Some "[name].js"
             | None => WriteOptions.chunkFileNames writeOptions
             end |}
    | Some false | None => writeOptions
    end in
  {| watching := Flags.watch cli_flags;
     readOptions := readOptions;
     writeOptions := writeOptions |}.

(** Whether the promise of an awaited [compile] is fulfilled: that is for
    the bundler to say. *)
Variable fulfilled : action -> bool.

(** [await compile(...)] inside [run], followed by the rest of [run]: a
    rejected promise ends [run] there. *)
Definition await (a : action) (rest : list action * ending)
  : list action * ending :=
  if fulfilled a then (a :: fst rest, snd rest) else ([a], rejected).

(** [if (outFile) { await compile(...) }], followed by the rest of [run]. *)
Definition if_truthy (outFile : option string) (job : string -> action)
    (rest : list action * ending) : list action * ending :=
  match outFile with
  | Some (String _ _ as outFile) => await (job outFile) rest
  | _ => rest
  end.

(** [run()]: the calls of [compile] it makes, in order, and how it ends.
    [pkg.source] is a non-empty string wherever it is passed on, since the
    first test has sent the other cases to the help text. *)
Definition run : list action * ending :=
  match cli_input, Pkg.source pkg with
  | [], None | [], Some EmptyString => ([], showed_help)
  | [], Some (String _ _ as source) =>
      let browser :=
        match Pkg.browser pkg with
        | None | Some (browser_file EmptyString) => false
        | Some _ => true
        end in
      if_truthy (Pkg.main pkg)
        (fun outFile => compile source outFile (if browser then "es" else "cjs"))
        (if_truthy (Pkg.module pkg)
           (fun outFile => compile source outFile "es")
           (if_truthy (Pkg.unpkg pkg)
              (fun outFile => compile source outFile "umd")
              ([], finished)))
  | _ :: _, _ =>
      let outFile :=
        Js.or_default (Js.or (Flags.output cli_flags) (Flags.o cli_flags)) "baked.js" in
      let outFormat :=
        Js.or_default (Js.or (Flags.format cli_flags) (Flags.f cli_flags)) "cjs" in
      await (compile (Js.join cli_input ",") outFile outFormat) ([], finished)
  end.

End Tool.

End IndexJs.

(** ** The plugin of the second source file, [src/unnamed/part_000] *)

Module Part000.

(** [httpExp.exec(id)] for [/^https?:\/\//]. *)
Definition httpExp_exec (id : string) : option string :=
  match Js.eat "http" id with
  | None => None
  | Some rest =>
      match
        match Js.eat "s" rest with
        | Some rest' => Js.eat "://" rest'
        | None => None
        end
      with
      | Some _ => Some "https://"
      | None =>
          match Js.eat "://" rest with
          | Some _ => Some "http://"
          | None => None
          end
      end
  end.

(** The inner [function load(url, isHttps)]. *)
Definition load (url : string) (isHttps : bool) (net : list request)
  : promise * list request :=
  let http := if isHttps then https_client else http_client in
  let r := {| via := http; target := url |} in
  (body_of r, (net ++ [r])%list).

Module plugin.

Definition resolveId (e : env) (id : string) : option string * env :=
  match httpExp_exec id with
  | Some m0 =>
      let record := {| isHttps := String.eqb m0 "https://"; url := id |} in
      let idx := Js.lastIndexOf id "/" in
      let pth := Js.substr id (idx + 1) in
      match Js.shift (Js.split pth ".") with
      | Some newId =>
          (Some newId, {| urls := <[newId := record]> (urls e); wire := wire e |})
      | None => (None, e)
      end
  | None => (None, e)
  end.

Definition load (e : env) (id : string) : option promise * env :=
  match urls e !! id with
  | Some {| url := url; isHttps := isHttps |} =>
      let '(p, net) := Part000.load url isHttps (wire e) in
      (Some p, {| urls := urls e; wire := net |})
  | None => (None, e)
  end.

End plugin.

Definition http : Plugin :=
  {| hook_resolveId := plugin.resolveId; hook_load := plugin.load |}.

(** *** The rest of [src/unnamed/part_000] *)

Definition nodeExternals : list string :=
  ["url"; "http"; "util"; "https"; "zlib"; "stream"; "path"; "crypto";
   "buffer"; "string_decoder"; "querystring"; "punycode"; "child_process";
   "events"].

Section Tool.
Context `{Numbers}.

(** [path.extname]. *)
Variable extname : string -> string.
(** [fs.lstatSync(p).isDirectory()], [None] when [lstatSync] throws. *)
Variable isDirectory : string -> option bool.
(** [cli.flags] and [pkg]. *)
Variable cli_flags : Flags.t.
Variable pkg : Pkg.t.

(** [tsc(entry)].  [path.extname] throws on [undefined].  Past the first
    line the function reads the names [format] and [options], which are
    declared nowhere in the file, so building the options throws. *)
Definition tsc (entry : option string) : outcome (option TsOptions.t) :=
  match entry with
  | None => throws
  | Some entry =>
      if negb (String.eqb (extname entry) ".ts")
         || negb (String.eqb (extname entry) ".tsx")
      then returns None
      else throws
  end.

(** [minify(outFormat)]. *)
Definition minify (outFormat : string) : option TerserOptions.t :=
  if negb (Flags.minify cli_flags) then None
  else
    let minifyOptions := Obj.or_empty (Pkg.minify pkg) in
    Some {| TerserOptions.sourcemap := true;
            TerserOptions.compress :=
              Obj.assign
                {| own := {[ "keep_infinity" := JBool true;
                             "pure_getters" := JBool true;
                             "passes" := JNum (number_of_Z 10) ]};
                   proto := None |}
                (Obj.or_empty (Obj.get minifyOptions "compress"));
            TerserOptions.warnings := true;
            TerserOptions.ecma := number_of_Z 9;
            TerserOptions.toplevel :=
              String.eqb outFormat "cjs" || String.eqb outFormat "es";
            TerserOptions.mangle :=
              Obj.assign Obj.empty (Obj.or_empty (Obj.get minifyOptions "mangle")) |}.

(** [compile(outFile, outFormat)]: what it asks of the bundler, or
    [throws] when it throws before it gets there. *)
Definition compile (outFile outFormat : string) : outcome action :=
  let externals := [] in
  let isBuiltForNode := String.eqb outFormat "cjs" in
  let externals := if isBuiltForNode then nodeExternals else externals in
  let externalList := Js.or (Flags.external cli_flags) (Flags.e cli_flags) in
  let externals :=
    match externalList with
    | Some (String _ _ as list) => (externals ++ Js.split list ",")%list
    | _ => externals
    end in
  let chunks :=
    match Flags.chunks cli_flags with
    | Some (String _ _ as list) =>
        Some (fold_left
                (fun chunks chunk =>
                   match Js.split chunk "=" with
                   | [] => Obj.set "undefined" [None] chunks
                   | [name] => Obj.set name [None] chunks
                   | name :: entry :: _ => Obj.set name [Some entry] chunks
                   end)
                (Js.split list ",") Obj.empty)
    | _ => None
    end in
  match tsc (Pkg.source pkg) with
  | throws => throws
  | returns typescript =>
      let plugins :=
        Js.filter_Boolean
          [Some json_plugin;
           Some (nodeResolve_plugin true true None);
           Some (commonjs_plugin false);
           Some globals_plugin;
           Some builtins_plugin;
           Some http_plugin;
           option_map typescript_plugin typescript;
           option_map terser_plugin (minify outFormat)] in
      let readOptions :=
        {| ReadOptions.input := Pkg.source pkg;
           ReadOptions.external := externals;
           ReadOptions.manualChunks := chunks;
           ReadOptions.plugins := plugins |} in
      let outIsDir :=
        match isDirectory outFile with
        | Some b => b
        | None => false
        end in
      let writeOptions :=
        {| WriteOptions.format := outFormat;
           WriteOptions.file := Some outFile;
           WriteOptions.dir := None;
           WriteOptions.exports := Js.or_default (Flags.exports cli_flags) "named";
           WriteOptions.name := None;
           WriteOptions.chunkFileNames := None |} in
      let writeOptions :=
        if Js.truthy (Flags.name cli_flags) || String.eqb outFormat "umd"
        then {| WriteOptions.format := WriteOptions.format writeOptions;
                WriteOptions.file := WriteOptions.file writeOptions;
                WriteOptions.dir := WriteOptions.dir writeOptions;
                WriteOptions.exports := WriteOptions.exports writeOptions;
                WriteOptions.name := Js.or (Flags.name cli_flags) (Pkg.name pkg);
                WriteOptions.chunkFileNames := WriteOptions.chunkFileNames writeOptions |}
        else writeOptions in
      let writeOptions :=
        if outIsDir
        then {| WriteOptions.format := WriteOptions.format writeOptions;
                WriteOptions.file := None;
                WriteOptions.dir := Flags.out cli_flags;
                WriteOptions.exports := WriteOptions.exports writeOptions;
                WriteOptions.name := WriteOptions.name writeOptions;
                WriteOptions.chunkFileNames :=
                  match chunks with
                  | Some _ => Some "[name].js"
                  | None => WriteOptions.chunkFileNames writeOptions
                  end |}
        else writeOptions in
      returns {| watching := false;
                 readOptions := readOptions;
                 writeOptions := writeOptions |}
  end.

End Tool.

End Part000.

(** ** The bundler driving a plugin instance

    During one bundling pass the host calls the two hooks of the instance in
    some order.  A pass is a list of such calls; running it threads the
    instance's state through and collects what each call answered. *)

Inductive call :=
| resolve (specifier : string)
| load (identifier : string).

Inductive answer :=
| resolved (id : option string)
| loaded (content : option promise).

#[global] Instance answer_eq_dec : EqDecision answer.
Proof. solve_decision. Defined.

Definition step (p : Plugin) (e : env) (c : call) : answer * env :=
  match c with
  | resolve specifier =>
      let '(r, e') := hook_resolveId p e specifier in (resolved r, e')
  | load identifier =>
      let '(r, e') := hook_load p e identifier in (loaded r, e')
  end.

Fixpoint run (p : Plugin) (e : env) (cs : list call) : list answer * env :=
  match cs with
  | [] => ([], e)
  | c :: cs' =>
      let '(a, e1) := step p e c in
      let '(answers, e2) := run p e1 cs' in
      (a :: answers, e2)
  end.

(** The state a pass leaves behind, and the answers it got. *)
Definition after (p : Plugin) (e : env) (cs : list call) : env := snd (run p e cs).
Definition answers (p : Plugin) (e : env) (cs : list call) : list answer :=
  fst (run p e cs).

(** [id] was returned by some [resolve] call of the pass. *)
Definition returned_by_resolve (p : Plugin) (cs : list call) (id : string) : Prop :=
  In (resolved (Some id)) (answers p fresh cs).

(** ** The vocabulary of the specification *)

Module Text.

(** The character [c] occurs in [s]. *)
Fixpoint occurs (c : ascii) (s : string) : bool :=
  match s with
  | EmptyString => false
  | String a s' => Ascii.eqb a c || occurs c s'
  end.

(** [s] begins with [p]. *)
Definition begins_with (p s : string) : Prop := exists rest, s = p +:+ rest.

(** [s] matches the pattern [^https?://]. *)
Definition matches_http (s : string) : Prop :=
  begins_with "http://" s \/ begins_with "https://" s.

(** [seg] is the substring of [s] after its last [c]. *)
Definition after_last (c : ascii) (s seg : string) : Prop :=
  occurs c seg = false /\ exists pre, s = pre +:+ String c seg.

(** [out] is [seg] truncated at its first [c] (all of [seg] when [c] does
    not occur in it). *)
Definition truncated_at_first (c : ascii) (seg out : string) : Prop :=
  occurs c out = false /\
  (seg = out \/ exists rest, seg = out +:+ String c rest).

(** The short identifier as the specification words it. *)
Definition short_id_of (specifier id : string) : Prop :=
  exists seg, after_last "/" specifier seg /\ truncated_at_first "." seg id.

End Text.

(** ** Vocabulary for the options and the calls of a pass *)

(** The call is a [resolve] call. *)
Definition is_resolve (c : call) : bool :=
  match c with
  | resolve _ => true
  | load _ => false
  end.

(** The answer is the answer to a [resolve] call. *)
Definition is_resolved (a : answer) : bool :=
  match a with
  | resolved _ => true
  | loaded _ => false
  end.

(** [chunk] reads [name=entry]: [name] is the text before the first ['='],
    [entry] the text between the first and the second ['='] (up to the end
    when there is no second one), and there is no [entry] when [chunk] has
    no ['='] at all. *)
Definition chunk_parts (chunk name : string) (entry : option string) : Prop :=
  Text.truncated_at_first "=" chunk name /\
  ((chunk = name /\ entry = None) \/
   exists rest value,
     chunk = name +:+ String "=" rest /\
     Text.truncated_at_first "=" rest value /\
     entry = Some value).

(** The name and the entry [compile] takes from one chunk of the [--chunks]
    flag, as its destructuring [[name, entry] = chunk.split("=")] does. *)
Definition parts_of (chunk : string) : string * option string :=
  match Js.split chunk "=" with
  | [] => ("undefined", None)
  | [name] => (name, None)
  | name :: entry :: _ => (name, Some entry)
  end.

(** The [compile] call [run] makes for one output field of the package
    file: one call when the field is a non-empty string, none otherwise. *)
Definition job_for `{Numbers} (outFile : option string) (job : string -> action)
  : list action :=
  match outFile with
  | Some (String _ _ as outFile) => [job outFile]
  | _ => []
  end.

(** Integers as stand-ins for JavaScript numbers, and a command line and a
    package file with nothing set, for the examples. *)
Definition integers : Numbers :=
  {| number := Z; number_of_Z := fun z => z; number_truthy := fun z => negb (z =? 0) |}.

Definition no_flags : Flags.t :=
  {| Flags.name := None; Flags.external := None; Flags.e := None;
     Flags.minify := false; Flags.watch := false; Flags.chunks := None;
     Flags.exports := None; Flags.output := None; Flags.o := None;
     Flags.out := None; Flags.format := None; Flags.f := None |}.

Definition no_fields `{Numbers} : Pkg.t :=
  {| Pkg.name := None; Pkg.source := None; Pkg.main := None;
     Pkg.module := None; Pkg.unpkg := None; Pkg.browser := None;
     Pkg.minify := None |}.

(** ** Two summaries used in the proofs *)

(** What [resolveId] computes from the specifier alone: the key it sets and
    the record it stores, [None] when it leaves the specifier to the next
    resolver.  [resolveId_entry] below shows that [resolveId] is this
    computation followed by [urls.set]. *)
Definition entry_of (id : string) : option (string * record) :=
  match IndexJs.httpExp_exec id with
  | Some m0 =>
      match Js.shift (Js.split (Js.substr id (Js.lastIndexOf id "/" + 1)) ".") with
      | Some newId =>
          Some (newId, {| isHttps := String.eqb m0 "https://"; url := id |})
      | None => None
      end
  | None => None
  end.

(** The request behind an answer of the plugin, if there is one. *)
Definition issued (a : answer) : list request :=
  match a with
  | loaded (Some (body_of r)) => [r]
  | _ => []
  end.

(** The request [load] makes for a record. *)
Definition request_for (r : record) : request :=
  {| via := if isHttps r then https_client else http_client; target := url r |}.

(** ** Facts about the string primitives *)

Section StringFacts.

Implicit Types (s p pre seg rest : string) (c a : ascii).

Lemma append_nil_r s : s +:+ "" = s.
Proof. induction s as [|a s IH]; simpl; [reflexivity | by f_equal]. Qed.

Lemma append_assoc s1 s2 s3 : (s1 +:+ s2) +:+ s3 = s1 +:+ s2 +:+ s3.
Proof. induction s1 as [|a s1 IH]; simpl; [reflexivity | by f_equal]. Qed.

Lemma length_append s1 s2 :
  String.length (s1 +:+ s2) = (String.length s1 + String.length s2)%nat.
Proof. induction s1 as [|a s1 IH]; simpl; [reflexivity | by f_equal]. Qed.

Lemma eat_spec p s rest : Js.eat p s = Some rest <-> s = p +:+ rest.
Proof.
  revert s. induction p as [|a p IH]; intros s; simpl.
  - split; congruence.
  - destruct s as [|b s]; [split; discriminate |].
    destruct (Ascii.eqb_spec a b) as [->|Hne].
    + rewrite IH. split; congruence.
    + split; [discriminate | intros [=]; congruence].
Qed.

Lemma eat_begins p s : is_Some (Js.eat p s) <-> Text.begins_with p s.
Proof.
  unfold Text.begins_with. split.
  - intros [rest H]. exists rest. by apply eat_spec.
  - intros [rest H]. exists rest. by apply eat_spec.
Qed.

Lemma occurs_append c s1 s2 :
  Text.occurs c (s1 +:+ s2) = Text.occurs c s1 || Text.occurs c s2.
Proof.
  induction s1 as [|a s1 IH]; simpl; [reflexivity |].
  by rewrite IH, orb_assoc.
Qed.

(** A string in which [c] occurs splits at the last occurrence. *)
Lemma occurs_last c s :
  Text.occurs c s = true ->
  exists pre seg, s = pre +:+ String c seg /\ Text.occurs c seg = false.
Proof.
  induction s as [|a s IH]; simpl; [discriminate |].
  destruct (Text.occurs c s) eqn:Hs.
  - intros _. destruct (IH eq_refl) as (pre & seg & -> & Hseg).
    by exists (String a pre), seg.
  - rewrite orb_false_r. intros ->%Ascii.eqb_eq. by exists "", s.
Qed.

(** The split at the last occurrence is unique. *)
Lemma after_last_unique c s seg1 seg2 :
  Text.after_last c s seg1 -> Text.after_last c s seg2 -> seg1 = seg2.
Proof.
  intros [H1 [pre1 E1]] [H2 [pre2 E2]]. subst s.
  revert pre2 E2. induction pre1 as [|a pre1 IH]; intros pre2 E2.
  - destruct pre2 as [|b pre2]; simpl in E2; [congruence |].
    injection E2 as _ E2. subst seg1.
    rewrite occurs_append in H1. simpl in H1.
    rewrite Ascii.eqb_refl, orb_true_r in H1. discriminate.
  - destruct pre2 as [|b pre2]; simpl in E2.
    + injection E2 as _ E2. subst seg2.
      rewrite occurs_append in H2. simpl in H2.
      rewrite Ascii.eqb_refl, orb_true_r in H2. discriminate.
    + injection E2 as _ E2. by apply (IH pre2).
Qed.

Lemma lastIndexOf_from_absent c s i found :
  Text.occurs c s = false -> Js.lastIndexOf_from c s i found = found.
Proof.
  revert i found. induction s as [|a s IH]; intros i found; simpl; [done |].
  intros [Ha Hs]%orb_false_iff. rewrite Ha. by apply IH.
Qed.

Lemma lastIndexOf_from_last c pre seg i found :
  Text.occurs c seg = false ->
  Js.lastIndexOf_from c (pre +:+ String c seg) i found
  = i + Z.of_nat (String.length pre).
Proof.
  intros Hseg. revert i found.
  induction pre as [|a pre IH]; intros i found; simpl.
  - rewrite Ascii.eqb_refl, lastIndexOf_from_absent by done. lia.
  - rewrite IH. lia.
Qed.

Lemma lastIndexOf_absent c s :
  Text.occurs c s = false -> Js.lastIndexOf s c = -1.
Proof. apply lastIndexOf_from_absent. Qed.

Lemma lastIndexOf_last c pre seg :
  Text.occurs c seg = false ->
  Js.lastIndexOf (pre +:+ String c seg) c = Z.of_nat (String.length pre).
Proof.
  intros H. unfold Js.lastIndexOf. by rewrite lastIndexOf_from_last.
Qed.

Lemma drop_append pre s : Js.drop (String.length pre) (pre +:+ s) = s.
Proof. induction pre as [|a pre IH]; simpl; [by destruct s | done]. Qed.

(** What [substr] returns right after the last occurrence. *)
Lemma substr_after_last c pre seg :
  Js.substr (pre +:+ String c seg) (Z.of_nat (String.length pre) + 1) = seg.
Proof.
  unfold Js.substr. rewrite length_append. simpl String.length.
  destruct (Z.ltb_spec (Z.of_nat (String.length pre) + 1) 0) as [?|_]; [lia |].
  rewrite Z.min_l by lia.
  replace (Z.to_nat (Z.of_nat (String.length pre) + 1))
    with (String.length (pre +:+ String c "")).
  2:{ rewrite length_append. simpl. lia. }
  replace (pre +:+ String c seg) with ((pre +:+ String c "") +:+ seg).
  2:{ by rewrite append_assoc. }
  apply drop_append.
Qed.

(** With no occurrence [lastIndexOf] is [-1] and [substr(0)] is the whole
    string. *)
Lemma substr_0 s : Js.substr s 0 = s.
Proof.
  unfold Js.substr. simpl.
  rewrite Z.min_l by lia. reflexivity.
Qed.

Lemma split_not_nil s c : Js.split s c <> [].
Proof.
  destruct s as [|a s]; simpl; [done |].
  destruct (Ascii.eqb a c); [done |]. by destruct (Js.split s c).
Qed.

(** The first piece of a split is the string truncated at the first
    separator. *)
Lemma shift_split s c :
  exists out, Js.shift (Js.split s c) = Some out /\
              Text.truncated_at_first c s out.
Proof.
  induction s as [|a s (out & Hout & Hno & Hcut)]; simpl.
  - exists "". repeat split. by left.
  - destruct (Ascii.eqb_spec a c) as [->|Hne].
    + exists "". repeat split. right. by exists s.
    + destruct (Js.split s c) as [|piece pieces]; [discriminate |].
      injection Hout as ->. exists (String a out). split; [done |].
      split.
      * simpl. rewrite Hno, orb_false_r. by apply Ascii.eqb_neq.
      * destruct Hcut as [->|[rest ->]]; [by left | right; by exists rest].
Qed.

Lemma truncated_unique c seg out1 out2 :
  Text.truncated_at_first c seg out1 ->
  Text.truncated_at_first c seg out2 -> out1 = out2.
Proof.
  intros [H1 C1] [H2 C2]. revert seg out2 H1 H2 C1 C2.
  induction out1 as [|a out1 IH]; intros seg out2 H1 H2 C1 C2.
  - destruct out2 as [|b out2]; [done |]. exfalso.
    simpl in H2. apply orb_false_iff in H2 as [Hb _].
    apply Ascii.eqb_neq in Hb.
    destruct C1 as [->|[r1 ->]]; destruct C2 as [C2|[r2 C2]];
      simpl in C2; congruence.
  - simpl in H1. apply orb_false_iff in H1 as [Ha H1].
    apply Ascii.eqb_neq in Ha.
    destruct out2 as [|b out2].
    + exfalso.
      destruct C1 as [->|[r1 ->]]; destruct C2 as [C2|[r2 C2]];
        simpl in C2; congruence.
    + simpl in H2. apply orb_false_iff in H2 as [_ H2].
      destruct seg as [|x seg].
      { destruct C1 as [C1|[r1 C1]]; simpl in C1; discriminate. }
      assert (x = a) as ->.
      { destruct C1 as [C1|[r1 C1]]; simpl in C1; congruence. }
      assert (a = b) as <-.
      { destruct C2 as [C2|[r2 C2]]; simpl in C2; congruence. }
      f_equal. apply (IH seg); [done | done | |].
      * destruct C1 as [C1|[r1 C1]]; simpl in C1;
          [left | right; exists r1]; congruence.
      * destruct C2 as [C2|[r2 C2]]; simpl in C2;
          [left | right; exists r2]; congruence.
Qed.

End StringFacts.

(** ** Facts about the hooks of [src/index.js] *)

Section HookFacts.

Import IndexJs.

Implicit Types (e : env) (id spec : string) (cs : list call).

Lemma resolveId_entry e id :
  plugin.resolveId e id =
  match entry_of id with
  | Some (k, r) => (Some k, {| urls := <[k := r]> (urls e); wire := wire e |})
  | None => (None, e)
  end.
Proof.
  unfold plugin.resolveId, entry_of.
  destruct (httpExp_exec id); [|reflexivity].
  by destruct (Js.shift _).
Qed.

Lemma load_lookup e id :
  plugin.load e id =
  match urls e !! id with
  | Some r =>
      (Some (body_of (request_for r)),
       {| urls := urls e; wire := (wire e ++ [request_for r])%list |})
  | None => (None, e)
  end.
Proof.
  unfold plugin.load. destruct (urls e !! id) as [[secure u]|]; reflexivity.
Qed.

(** The three ways the regular expression can go. *)
Lemma httpExp_exec_cases id :
  (Text.begins_with "https://" id /\ httpExp_exec id = Some "https://") \/
  (Text.begins_with "http://" id /\ ~ Text.begins_with "https://" id /\
   httpExp_exec id = Some "http://") \/
  (~ Text.matches_http id /\ httpExp_exec id = None).
Proof.
  unfold httpExp_exec.
  destruct (Js.eat "http" id) as [rest|] eqn:E.
  - apply eat_spec in E. subst id.
    destruct (Js.eat "s" rest) as [rest'|] eqn:Es.
    + apply eat_spec in Es. subst rest.
      destruct (Js.eat "://" rest') as [tl|] eqn:E3.
      * left. apply eat_spec in E3. subst rest'. split; [by exists tl | done].
      * right; right. split; [|reflexivity].
        intros [[r H]|[r H]]; simpl in H; [discriminate |].
        injection H as ->. simpl in E3. discriminate.
    + destruct (Js.eat "://" rest) as [tl|] eqn:E3.
      * right; left. apply eat_spec in E3. subst rest.
        split; [by exists tl |]. split; [|reflexivity].
        intros [r H]. simpl in H. discriminate.
      * right; right. split; [|reflexivity].
        intros [[r H]|[r H]]; simpl in H; injection H as ->;
          simpl in *; discriminate.
  - right; right. split; [|reflexivity].
    intros [[r ->]|[r ->]]; simpl in E; discriminate.
Qed.

Lemma matches_has_slash id : Text.matches_http id -> Text.occurs "/" id = true.
Proof. intros [[r ->]|[r ->]]; reflexivity. Qed.

(** On a matching specifier [pth] is the text after the last slash. *)
Lemma pth_after_last id :
  Text.matches_http id ->
  Text.after_last "/" id (Js.substr id (Js.lastIndexOf id "/" + 1)).
Proof.
  intros Hm. destruct (occurs_last _ _ (matches_has_slash _ Hm))
    as (pre & seg & -> & Hseg).
  rewrite lastIndexOf_last, substr_after_last by done.
  split; [done | by exists pre].
Qed.

Lemma entry_of_matching id :
  Text.matches_http id ->
  exists k secure,
    entry_of id = Some (k, {| isHttps := secure; url := id |}) /\
    Text.short_id_of id k /\
    (secure = true <-> Text.begins_with "https://" id).
Proof.
  intros Hm. unfold entry_of.
  destruct (shift_split (Js.substr id (Js.lastIndexOf id "/" + 1)) ".")
    as (k & -> & Hk).
  assert (Text.short_id_of id k) as Hshort.
  { eexists. split; [by apply pth_after_last | done]. }
  destruct (httpExp_exec_cases id) as [[Hs ->]|[(Hp & Hns & ->)|[Hno _]]].
  - exists k, true. by repeat split.
  - exists k, false. repeat split; [done | discriminate | done].
  - done.
Qed.

Lemma entry_of_other id : ~ Text.matches_http id -> entry_of id = None.
Proof.
  intros Hno. unfold entry_of.
  destruct (httpExp_exec_cases id) as [[Hs _]|[(Hp & _ & _)|[_ ->]]];
    [| |reflexivity]; exfalso; apply Hno; [by right | by left].
Qed.

Lemma entry_of_url id k r : entry_of id = Some (k, r) -> url r = id.
Proof.
  unfold entry_of. destruct (httpExp_exec id); [|discriminate].
  destruct (Js.shift _); [|discriminate]. by intros [= <- <-].
Qed.

Lemma short_id_unique id k1 k2 :
  Text.short_id_of id k1 -> Text.short_id_of id k2 -> k1 = k2.
Proof.
  intros (seg1 & Ha1 & Ht1) (seg2 & Ha2 & Ht2).
  rewrite (after_last_unique _ _ _ _ Ha1 Ha2) in Ht1.
  by eapply truncated_unique.
Qed.

End HookFacts.

(** ** Facts about a bundling pass *)

Section PassFacts.

Variable p : Plugin.

Implicit Types (e : env) (cs : list call) (c : call).

Lemma answers_cons e c cs :
  answers p e (c :: cs) = fst (step p e c) :: answers p (snd (step p e c)) cs.
Proof.
  unfold answers. simpl. destruct (step p e c) as [a e1]. simpl.
  by destruct (run p e1 cs).
Qed.

Lemma after_cons e c cs :
  after p e (c :: cs) = after p (snd (step p e c)) cs.
Proof.
  unfold after. simpl. destruct (step p e c) as [a e1]. simpl.
  by destruct (run p e1 cs).
Qed.

Lemma after_nil e : after p e [] = e.
Proof. reflexivity. Qed.

Lemma after_app e cs1 cs2 :
  after p e (cs1 ++ cs2)%list = after p (after p e cs1) cs2.
Proof.
  revert e. induction cs1 as [|c cs1 IH]; intros e; [reflexivity |].
  simpl app. by rewrite !after_cons, IH.
Qed.

Lemma answers_app e cs1 cs2 :
  answers p e (cs1 ++ cs2)%list
  = (answers p e cs1 ++ answers p (after p e cs1) cs2)%list.
Proof.
  revert e. induction cs1 as [|c cs1 IH]; intros e; [reflexivity |].
  simpl app. by rewrite !answers_cons, after_cons, IH.
Qed.

End PassFacts.

Section IndexJsPass.

Abbreviation http := IndexJs.http.

Implicit Types (e : env) (cs : list call) (c : call) (id spec : string).

Lemma step_resolve e spec :
  step http e (resolve spec) =
  match entry_of spec with
  | Some (k, r) =>
      (resolved (Some k), {| urls := <[k := r]> (urls e); wire := wire e |})
  | None => (resolved None, e)
  end.
Proof.
  simpl. rewrite resolveId_entry. by destruct (entry_of spec) as [[k r]|].
Qed.

Lemma step_load e id :
  step http e (load id) =
  match urls e !! id with
  | Some r =>
      (loaded (Some (body_of (request_for r))),
       {| urls := urls e; wire := (wire e ++ [request_for r])%list |})
  | None => (loaded None, e)
  end.
Proof.
  simpl. rewrite load_lookup. by destruct (urls e !! id).
Qed.

(** No call removes a key of the table. *)
Lemma step_keeps_keys e c id :
  is_Some (urls e !! id) -> is_Some (urls (snd (step http e c)) !! id).
Proof.
  intros H. destruct c as [spec|k].
  - rewrite step_resolve. destruct (entry_of spec) as [[k r]|]; [|done].
    simpl. destruct (decide (k = id)) as [->|Hne].
    + rewrite lookup_insert_eq. by eexists.
    + by rewrite lookup_insert_ne.
  - rewrite step_load. by destruct (urls e !! k).
Qed.

Lemma pass_keeps_keys e cs id :
  is_Some (urls e !! id) -> is_Some (urls (after http e cs) !! id).
Proof.
  revert e. induction cs as [|c cs IH]; intros e H; [done |].
  rewrite after_cons. by apply IH, step_keeps_keys.
Qed.

(** The requests on the network are those of the [load] calls, in order. *)
Lemma step_wire e c :
  wire (snd (step http e c)) = (wire e ++ issued (fst (step http e c)))%list.
Proof.
  destruct c as [spec|k].
  - rewrite step_resolve. destruct (entry_of spec) as [[k r]|]; simpl;
      by rewrite app_nil_r.
  - rewrite step_load. destruct (urls e !! k); simpl; [done |].
    by rewrite app_nil_r.
Qed.

Lemma pass_wire e cs :
  wire (after http e cs)
  = (wire e ++ concat (map issued (answers http e cs)))%list.
Proof.
  revert e. induction cs as [|c cs IH]; intros e.
  - simpl. by rewrite app_nil_r.
  - rewrite after_cons, answers_cons, IH, step_wire. simpl.
    by rewrite <- app_assoc.
Qed.

(** A pass in which no [resolve] call returns [id] leaves the entry of
    [id] as it was. *)
Lemma pass_frame e cs id :
  ~ In (resolved (Some id)) (answers http e cs) ->
  urls (after http e cs) !! id = urls e !! id.
Proof.
  revert e. induction cs as [|c cs IH]; intros e H; [done |].
  rewrite answers_cons in H. rewrite after_cons, IH.
  2:{ intros Hin. apply H. by right. }
  destruct c as [spec|k].
  - rewrite step_resolve in *. destruct (entry_of spec) as [[k r]|]; [|done].
    simpl in *. apply lookup_insert_ne. intros ->. apply H. by left.
  - rewrite step_load. by destruct (urls e !! k).
Qed.

(** A key of the table comes from the start state or from a [resolve]
    call of the pass. *)
Lemma pass_key_origin e cs id :
  is_Some (urls (after http e cs) !! id) ->
  is_Some (urls e !! id) \/ In (resolved (Some id)) (answers http e cs).
Proof.
  intros H.
  destruct (in_dec answer_eq_dec (resolved (Some id)) (answers http e cs))
    as [Hin|Hnin]; [by right | left].
  by rewrite <- (pass_frame e cs id).
Qed.

(** When some [resolve] call of a pass returned [id], the table holds the
    record of the last such call. *)
Lemma last_resolve e cs id :
  In (resolved (Some id)) (answers http e cs) ->
  exists spec cs1 cs2 r,
    cs = (cs1 ++ resolve spec :: cs2)%list /\
    entry_of spec = Some (id, r) /\
    ~ In (resolved (Some id))
         (answers http (after http e (cs1 ++ [resolve spec])%list) cs2) /\
    urls (after http e cs) !! id = Some r.
Proof.
  revert e. induction cs as [|c cs IH]; intros e H; [done |].
  destruct (in_dec answer_eq_dec (resolved (Some id))
              (answers http (snd (step http e c)) cs)) as [Hin|Hnin].
  - destruct (IH _ Hin) as (spec & cs1 & cs2 & r & -> & He & Hlast & Hr).
    exists spec, (c :: cs1), cs2, r. repeat split; [done | |].
    + simpl app. by rewrite after_cons.
    + by rewrite after_cons.
  - rewrite answers_cons in H. destruct H as [H|H]; [|done].
    destruct c as [spec|k].
    2:{ rewrite step_load in H. by destruct (urls e !! k). }
    rewrite step_resolve in H, Hnin.
    destruct (entry_of spec) as [[k r]|] eqn:He; [|done].
    simpl in H, Hnin. injection H as ->.
    exists spec, [], cs, r. repeat split; [done | |].
    + simpl app. rewrite after_cons, after_nil, step_resolve, He. done.
    + rewrite after_cons, step_resolve, He. simpl.
      rewrite pass_frame by done. simpl. apply lookup_insert_eq.
Qed.

(** The keys of the table of a fresh instance are the identifiers
    [resolve] returned. *)
Lemma table_keys cs id :
  is_Some (urls (after http fresh cs) !! id) <-> returned_by_resolve http cs id.
Proof.
  unfold returned_by_resolve. split.
  - intros H. destruct (pass_key_origin _ _ _ H) as [[r Hr]|Hin]; [|done].
    simpl in Hr. by rewrite lookup_empty in Hr.
  - intros H. destruct (last_resolve _ _ _ H) as (_ & _ & _ & r & _ & _ & _ & Hr).
    by exists r.
Qed.

End IndexJsPass.

(** ** The hooks on small inputs *)

Example resolve_util :
  fst (IndexJs.plugin.resolveId fresh "https://example.com/lib/util.js") = Some "util".
Proof. reflexivity. Qed.

Example resolve_plain_http :
  fst (IndexJs.plugin.resolveId fresh "http://cdn.example/x/jquery.min.js")
  = Some "jquery".
Proof. reflexivity. Qed.

Example resolve_host_only :
  fst (IndexJs.plugin.resolveId fresh "https://example.com") = Some "example".
Proof. reflexivity. Qed.

Example resolve_trailing_slash :
  fst (IndexJs.plugin.resolveId fresh "https://example.com/lib/") = Some "".
Proof. reflexivity. Qed.

Example resolve_upper_case_scheme :
  fst (IndexJs.plugin.resolveId fresh "HTTPS://example.com/lib/util.js") = None.
Proof. reflexivity. Qed.

Example resolve_relative_path :
  fst (IndexJs.plugin.resolveId fresh "./local/file.js") = None.
Proof. reflexivity. Qed.

Example small_pass_answers :
  answers IndexJs.http fresh
    [load "util"; resolve "https://example.com/lib/util.js"; load "util";
     resolve "./local/file.js"; resolve "http://mirror.example/util.js";
     load "util"]
  = [loaded None; resolved (Some "util");
     loaded (Some (body_of {| via := https_client;
                              target := "https://example.com/lib/util.js" |}));
     resolved None; resolved (Some "util");
     loaded (Some (body_of {| via := http_client;
                              target := "http://mirror.example/util.js" |}))].
Proof. vm_compute. reflexivity. Qed.

Example small_pass_wire :
  wire (after IndexJs.http fresh
          [load "util"; resolve "https://example.com/lib/util.js"; load "util";
           load "util"])
  = [{| via := https_client; target := "https://example.com/lib/util.js" |};
     {| via := https_client; target := "https://example.com/lib/util.js" |}].
Proof. vm_compute. reflexivity. Qed.

(** ** The properties of the specification *)

Section Properties.

Abbreviation http := IndexJs.http.
Abbreviation resolveId := IndexJs.plugin.resolveId.
Abbreviation load_hook := IndexJs.plugin.load.

Implicit Types (e : env) (cs : list call) (id spec : string).

Lemma entry_of_inv spec k r :
  entry_of spec = Some (k, r) ->
  Text.matches_http spec /\ Text.short_id_of spec k /\ url r = spec /\
  (isHttps r = true <-> Text.begins_with "https://" spec).
Proof.
  intros He.
  assert (Text.matches_http spec) as Hm.
  { destruct (httpExp_exec_cases spec) as [[Hs _]|[(Hp & _ & _)|[Hno _]]];
      [by right | by left |].
    rewrite (entry_of_other _ Hno) in He. discriminate. }
  destruct (entry_of_matching _ Hm) as (k' & secure & He' & Hshort & Hsec).
  rewrite He in He'. injection He' as -> ->. done.
Qed.

Lemma request_for_via r :
  (via (request_for r) = https_client <-> isHttps r = true) /\
  (via (request_for r) = http_client <-> isHttps r <> true).
Proof. unfold request_for. destruct (isHttps r); simpl; split; split; done. Qed.

Lemma env_eta e : {| urls := urls e; wire := wire e |} = e.
Proof. by destruct e. Qed.

Lemma repeated_load e id r n :
  urls e !! id = Some r ->
  answers http e (repeat (load id) n)
  = repeat (loaded (Some (body_of (request_for r)))) n /\
  after http e (repeat (load id) n)
  = {| urls := urls e; wire := (wire e ++ repeat (request_for r) n)%list |}.
Proof.
  revert e. induction n as [|n IH]; intros e Hr; simpl repeat.
  - split; [reflexivity |]. rewrite after_nil, app_nil_r. by rewrite env_eta.
  - rewrite answers_cons, after_cons, step_load, Hr. simpl.
    destruct (IH {| urls := urls e; wire := (wire e ++ [request_for r])%list |} Hr)
      as [-> ->].
    split; [done |]. simpl. by rewrite <- app_assoc.
Qed.

(** C1: for every specifier matching [^https?://], [resolve] returns exactly
    the substring of the specifier after its last ['/'], truncated at the
    first ['.'] of that substring (there is one and only one such string);
    in particular [resolve("https://example.com/lib/util.js")] returns
    ["util"]. *)
Theorem resolve_returns_short_id e spec (Hm : Text.matches_http spec) :
  (exists id,
     fst (resolveId e spec) = Some id /\
     Text.short_id_of spec id /\
     forall id', Text.short_id_of spec id' -> id' = id) /\
  fst (resolveId e "https://example.com/lib/util.js") = Some "util".
Proof.
  split; [|reflexivity].
  destruct (entry_of_matching _ Hm) as (k & secure & He & Hshort & _).
  exists k. rewrite resolveId_entry, He. repeat split; [done |].
  intros id' Hid'. by apply (short_id_unique spec).
Qed.

Lemma resolve_returns_short_id_witness :
  (exists id,
     fst (resolveId fresh "https://example.com/lib/util.js") = Some id /\
     Text.short_id_of "https://example.com/lib/util.js" id /\
     forall id', Text.short_id_of "https://example.com/lib/util.js" id' -> id' = id) /\
  fst (resolveId fresh "https://example.com/lib/util.js") = Some "util".
Proof.
  apply (resolve_returns_short_id fresh "https://example.com/lib/util.js").
  right. exists "example.com/lib/util.js". reflexivity.
Defined.

(** C2: for every identifier a [resolve] call of the pass returned, [load]
    answers with a promise and puts exactly one request on the network; the
    request goes to the URL recorded for the identifier, which is the
    specifier of the last [resolve] call that returned it, and uses the
    HTTPS client if and only if that specifier begins with [https://]
    (the HTTP client otherwise). *)
Theorem load_requests_recorded_url cs id
  (Hret : returned_by_resolve http cs id) :
  let e := after http fresh cs in
  exists spec cs1 cs2 r,
    cs = (cs1 ++ resolve spec :: cs2)%list /\
    fst (resolveId (after http fresh cs1) spec) = Some id /\
    ~ In (resolved (Some id))
         (answers http (after http fresh (cs1 ++ [resolve spec])%list) cs2) /\
    load_hook e id
    = (Some (body_of r), {| urls := urls e; wire := (wire e ++ [r])%list |}) /\
    target r = spec /\
    (via r = https_client <-> Text.begins_with "https://" spec) /\
    (via r = http_client <-> ~ Text.begins_with "https://" spec).
Proof.
  intros e. subst e.
  destruct (last_resolve _ _ _ Hret) as (spec & cs1 & cs2 & r & Hcs & He & Hlast & Hr).
  destruct (entry_of_inv _ _ _ He) as (_ & _ & Hurl & Hsec).
  destruct (request_for_via r) as [Hs Hp].
  exists spec, cs1, cs2, (request_for r). repeat split.
  - done.
  - by rewrite resolveId_entry, He.
  - done.
  - by rewrite load_lookup, Hr.
  - done.
  - intros H. by apply Hsec, Hs.
  - intros H. by apply Hs, Hsec.
  - intros H Hb. by apply Hp, Hsec.
  - intros H. apply Hp. intros Ht. by apply H, Hsec.
Qed.

Lemma load_requests_recorded_url_witness :
  let cs := [resolve "https://example.com/lib/util.js"] in
  let e := after http fresh cs in
  exists spec cs1 cs2 r,
    cs = (cs1 ++ resolve spec :: cs2)%list /\
    fst (resolveId (after http fresh cs1) spec) = Some "util" /\
    ~ In (resolved (Some "util"))
         (answers http (after http fresh (cs1 ++ [resolve spec])%list) cs2) /\
    load_hook e "util"
    = (Some (body_of r), {| urls := urls e; wire := (wire e ++ [r])%list |}) /\
    target r = spec /\
    (via r = https_client <-> Text.begins_with "https://" spec) /\
    (via r = http_client <-> ~ Text.begins_with "https://" spec).
Proof.
  apply (load_requests_recorded_url [resolve "https://example.com/lib/util.js"] "util").
  left. reflexivity.
Defined.

(** C3: for every specifier that does not match [^https?://], [resolve]
    returns nothing and changes nothing, so the host goes on to its default
    resolver; for example [resolve("./local/file.js")] returns nothing. *)
Theorem resolve_ignores_other_specifiers e spec (Hno : ~ Text.matches_http spec) :
  resolveId e spec = (None, e) /\
  resolveId e "./local/file.js" = (None, e).
Proof.
  split; [|reflexivity].
  by rewrite resolveId_entry, entry_of_other.
Qed.

Lemma resolve_ignores_other_specifiers_witness :
  resolveId fresh "./local/file.js" = (None, fresh) /\
  resolveId fresh "./local/file.js" = (None, fresh).
Proof.
  apply (resolve_ignores_other_specifiers fresh "./local/file.js").
  intros [[rest H]|[rest H]]; simpl in H; discriminate.
Defined.

(** C4: for every identifier that no [resolve] call of the pass returned,
    the identifier is not a key of the Resolution Table, and [load] returns
    nothing and leaves the state as it is: no request goes out. *)
Theorem load_ignores_unresolved cs id
  (Hnot : ~ returned_by_resolve http cs id) :
  let e := after http fresh cs in
  urls e !! id = None /\ load_hook e id = (None, e).
Proof.
  intros e. subst e.
  assert (urls (after http fresh cs) !! id = None) as Hnone.
  { apply eq_None_not_Some. intros H. by apply Hnot, table_keys. }
  split; [done |]. by rewrite load_lookup, Hnone.
Qed.

Lemma load_ignores_unresolved_witness :
  let e := after http fresh [resolve "https://example.com/lib/util.js"; load "util"] in
  urls e !! "main" = None /\ load_hook e "main" = (None, e).
Proof.
  apply (load_ignores_unresolved
           [resolve "https://example.com/lib/util.js"; load "util"] "main").
  intros [H|[H|[]]]; discriminate.
Defined.

(** C5, as stated, fails: the specifier [https://example.com/] matches the
    pattern and [resolve] returns the empty string for it. *)
Lemma resolve_id_can_be_empty :
  Text.matches_http "https://example.com/" /\
  ~ (exists id, fst (resolveId fresh "https://example.com/") = Some id /\ id <> "").
Proof.
  split.
  - right. by exists "example.com/".
  - intros (id & H & Hne). simpl in H. congruence.
Qed.

(** C5, amended: for every specifier matching [^https?://], [resolve]
    returns an identifier; the identifier is the empty string exactly when
    the text after the last ['/'] is empty or begins with ['.'], and is
    non-empty otherwise. *)
Theorem resolve_id_empty_iff e spec (Hm : Text.matches_http spec) :
  exists id seg,
    fst (resolveId e spec) = Some id /\
    Text.after_last "/" spec seg /\
    Text.truncated_at_first "." seg id /\
    (id = "" <-> seg = "" \/ Text.begins_with "." seg).
Proof.
  destruct (entry_of_matching _ Hm) as (k & secure & He & (seg & Ha & Ht) & _).
  exists k, seg. rewrite resolveId_entry, He.
  split; [done |]. split; [done |]. split; [done |]. split.
  - intros ->. destruct Ht as [_ [->|[rest ->]]]; [by left | right; by exists rest].
  - destruct Ht as [Hno Hcut]. intros [->|[rest ->]].
    + destruct Hcut as [<-|[rest H]]; [done |]. by destruct k.
    + destruct k as [|a k]; [done |]. exfalso.
      assert (a = "."%char) as ->.
      { destruct Hcut as [H|[r H]]; simpl in H; congruence. }
      simpl in Hno. discriminate.
Qed.

Lemma resolve_id_empty_iff_witness :
  exists id seg,
    fst (resolveId fresh "https://example.com/.hidden") = Some id /\
    Text.after_last "/" "https://example.com/.hidden" seg /\
    Text.truncated_at_first "." seg id /\
    (id = "" <-> seg = "" \/ Text.begins_with "." seg).
Proof.
  apply (resolve_id_empty_iff fresh "https://example.com/.hidden").
  right. exists "example.com/.hidden". reflexivity.
Defined.

(** C6: two distinct URL specifiers whose final path segments before the
    first ['.'] are equal get the same short identifier; resolving the
    second after the first replaces the record of the first in the
    Resolution Table, and a [load] of the identifier after that requests
    the second URL. *)
Theorem colliding_specifiers_overwrite e s1 s2 id
  (Hm1 : Text.matches_http s1) (Hm2 : Text.matches_http s2)
  (Hne : s1 <> s2)
  (Hs1 : Text.short_id_of s1 id) (Hs2 : Text.short_id_of s2 id) :
  let e1 := snd (resolveId e s1) in
  let e2 := snd (resolveId e1 s2) in
  fst (resolveId e s1) = Some id /\
  fst (resolveId e1 s2) = Some id /\
  (exists r1, urls e1 !! id = Some r1 /\ url r1 = s1) /\
  (exists r2, urls e2 !! id = Some r2 /\ url r2 = s2 /\ url r2 <> s1) /\
  exists r,
    target r = s2 /\
    load_hook e2 id
    = (Some (body_of r), {| urls := urls e2; wire := (wire e ++ [r])%list |}).
Proof.
  intros e1 e2. subst e1 e2.
  destruct (entry_of_matching _ Hm1) as (k1 & sec1 & He1 & Hk1 & _).
  destruct (entry_of_matching _ Hm2) as (k2 & sec2 & He2 & Hk2 & _).
  rewrite (short_id_unique _ _ _ Hk1 Hs1) in He1.
  rewrite (short_id_unique _ _ _ Hk2 Hs2) in He2.
  rewrite !resolveId_entry, He1. simpl. rewrite He2. simpl.
  repeat split.
  - eexists. split; [apply lookup_insert_eq | done].
  - eexists. split; [apply lookup_insert_eq |]. simpl. split; congruence.
  - eexists. split; [|rewrite load_lookup; simpl; rewrite lookup_insert_eq; reflexivity].
    reflexivity.
Qed.

Lemma colliding_specifiers_overwrite_witness :
  let s1 := "https://a.example/lib/util.js" in
  let s2 := "http://b.example/vendor/util.min.js" in
  let e1 := snd (resolveId fresh s1) in
  let e2 := snd (resolveId e1 s2) in
  fst (resolveId fresh s1) = Some "util" /\
  fst (resolveId e1 s2) = Some "util" /\
  (exists r1, urls e1 !! "util" = Some r1 /\ url r1 = s1) /\
  (exists r2, urls e2 !! "util" = Some r2 /\ url r2 = s2 /\ url r2 <> s1) /\
  exists r,
    target r = s2 /\
    load_hook e2 "util"
    = (Some (body_of r), {| urls := urls e2; wire := (wire fresh ++ [r])%list |}).
Proof.
  apply (colliding_specifiers_overwrite fresh
           "https://a.example/lib/util.js" "http://b.example/vendor/util.min.js"
           "util").
  - right. exists "a.example/lib/util.js". reflexivity.
  - left. exists "b.example/vendor/util.min.js". reflexivity.
  - discriminate.
  - exists "util.js". split.
    + split; [reflexivity | exists "https://a.example/lib"; reflexivity].
    + split; [reflexivity | right; exists "js"; reflexivity].
  - exists "util.min.js". split.
    + split; [reflexivity | exists "http://b.example/vendor"; reflexivity].
    + split; [reflexivity | right; exists "min.js"; reflexivity].
Defined.

(** C7: an identifier that is a key of the Resolution Table stays a key
    whatever [resolve] and [load] calls follow; and nothing is cached: a
    [load] of the identifier in any later state puts a request on the
    network, and [n] loads in a row put [n] requests on it. *)
Theorem entries_stay_and_loads_refetch e id
  (Hkey : is_Some (urls e !! id)) :
  (forall cs, is_Some (urls (after http e cs) !! id)) /\
  (forall cs, exists r,
     let e' := after http e cs in
     load_hook e' id
     = (Some (body_of r), {| urls := urls e'; wire := (wire e' ++ [r])%list |})) /\
  (exists r, forall n,
     answers http e (repeat (load id) n) = repeat (loaded (Some (body_of r))) n /\
     wire (after http e (repeat (load id) n)) = (wire e ++ repeat r n)%list).
Proof.
  split; [|split].
  - intros cs. by apply pass_keeps_keys.
  - intros cs. destruct (pass_keeps_keys e cs id Hkey) as [r Hr].
    exists (request_for r). simpl. by rewrite load_lookup, Hr.
  - destruct Hkey as [r Hr]. exists (request_for r). intros n.
    destruct (repeated_load e id r n Hr) as [-> ->]. done.
Qed.

Lemma entries_stay_and_loads_refetch_witness :
  let e := after http fresh [resolve "https://example.com/lib/util.js"] in
  (forall cs, is_Some (urls (after http e cs) !! "util")) /\
  (forall cs, exists r,
     let e' := after http e cs in
     load_hook e' "util"
     = (Some (body_of r), {| urls := urls e'; wire := (wire e' ++ [r])%list |})) /\
  (exists r, forall n,
     answers http e (repeat (load "util") n) = repeat (loaded (Some (body_of r))) n /\
     wire (after http e (repeat (load "util") n)) = (wire e ++ repeat r n)%list).
Proof.
  apply (entries_stay_and_loads_refetch
           (after http fresh [resolve "https://example.com/lib/util.js"]) "util").
  exists {| isHttps := true; url := "https://example.com/lib/util.js" |}.
  vm_compute. reflexivity.
Defined.

(** C8: a call to [resolve] puts no request on the network; all it does is
    set one entry of the Resolution Table (nothing at all when it declines
    the specifier); the requests on the network after a pass are those of
    its [load] calls, in order. *)
Theorem resolve_sends_nothing e spec :
  wire (snd (resolveId e spec)) = wire e /\
  (resolveId e spec = (None, e) \/
   exists k r,
     fst (resolveId e spec) = Some k /\
     urls (snd (resolveId e spec)) = <[k := r]> (urls e)) /\
  (forall k, fst (resolveId e spec) <> Some k ->
     urls (snd (resolveId e spec)) !! k = urls e !! k) /\
  issued (fst (step http e (resolve spec))) = [] /\
  forall cs,
    wire (after http e cs) = (wire e ++ concat (map issued (answers http e cs)))%list.
Proof.
  rewrite resolveId_entry. destruct (entry_of spec) as [[k r]|] eqn:He.
  - simpl. repeat split.
    + right. by exists k, r.
    + intros k' Hk'. apply lookup_insert_ne. congruence.
    + by rewrite resolveId_entry, He.
    + apply pass_wire.
  - simpl. repeat split.
    + by left.
    + by rewrite resolveId_entry, He.
    + apply pass_wire.
Qed.

(** C9: the identifier [resolve] returns depends on the specifier only, not
    on the state of the Resolution Table, and a second [resolve] of the same
    specifier right after the first returns the same identifier and leaves
    the state as the first call left it. *)
Theorem resolve_deterministic_idempotent e1 e2 spec :
  fst (resolveId e1 spec) = fst (resolveId e2 spec) /\
  resolveId (snd (resolveId e1 spec)) spec = resolveId e1 spec.
Proof.
  rewrite !resolveId_entry. destruct (entry_of spec) as [[k r]|] eqn:He; simpl.
  - split; [done |]. by rewrite insert_insert_eq.
  - done.
Qed.

(** C10: the two copies of the plugin behave alike: their [resolveId] hooks
    return the same identifier and the same Resolution Table for every
    specifier and state, their [load] hooks make the same request (same
    URL, same client) for every identifier and state, and so every pass
    gets the same answers and ends in the same state with either copy. *)
Theorem copies_equivalent :
  (forall e spec,
     IndexJs.plugin.resolveId e spec = Part000.plugin.resolveId e spec) /\
  (forall e id, IndexJs.plugin.load e id = Part000.plugin.load e id) /\
  (forall url secure net, IndexJs.load url secure net = Part000.load url secure net) /\
  (forall e cs, run IndexJs.http e cs = run Part000.http e cs).
Proof.
  (* the two embeddings unfold to the same terms *)
  split; [|split; [|split]]; intros; reflexivity.
Qed.

End Properties.

(** ** Further properties of the resolver plugin *)

Section ResolverInvariants.

Abbreviation http := IndexJs.http.
Abbreviation resolveId := IndexJs.plugin.resolveId.

Implicit Types (e : env) (cs : list call) (id spec : string).

(** Where a record of the table of a fresh instance comes from. *)
Lemma table_record_origin cs k r :
  urls (after http fresh cs) !! k = Some r ->
  entry_of (url r) = Some (k, r) /\ In (resolve (url r)) cs.
Proof.
  intros Hr.
  assert (returned_by_resolve http cs k) as Hret.
  { apply table_keys. by exists r. }
  destruct (last_resolve _ _ _ Hret) as (spec & cs1 & cs2 & r' & -> & He & _ & Hr').
  rewrite Hr in Hr'. injection Hr' as <-.
  rewrite (entry_of_url _ _ _ He). split; [done |].
  apply in_or_app. right. by left.
Qed.

(** Where a request on the network comes from. *)
Lemma wire_origin e cs q :
  In q (wire (after http e cs)) ->
  In q (wire e) \/
  exists cs1 id cs2 r,
    cs = (cs1 ++ load id :: cs2)%list /\
    urls (after http e cs1) !! id = Some r /\
    q = request_for r.
Proof.
  revert e. induction cs as [|c cs IH]; intros e Hq; [by left |].
  rewrite after_cons in Hq. destruct (IH _ Hq) as [Hin|Hlater].
  - destruct c as [spec|id].
    + left. rewrite step_resolve in Hin.
      by destruct (entry_of spec) as [[k r]|].
    + rewrite step_load in Hin. destruct (urls e !! id) as [r|] eqn:Hr; [|by left].
      simpl in Hin. apply in_app_or in Hin as [Hin|[<-|[]]]; [by left |].
      right. by exists [], id, cs, r.
  - right. destruct Hlater as (cs1 & id & cs2 & r & -> & Hr & ->).
    exists (c :: cs1), id, cs2, r. split; [done |]. split; [|done].
    by rewrite after_cons.
Qed.

(** X1: every record in the table of an instance is consistent with the
    call that stored it: its [url] is a specifier some [resolve] call of
    the pass was given, that specifier matches [^https?://], the key is
    its short identifier, and [isHttps] says whether it begins with
    [https://]. *)
Theorem table_records_consistent cs k r
  (Hr : urls (after http fresh cs) !! k = Some r) :
  In (resolve (url r)) cs /\
  Text.matches_http (url r) /\
  Text.short_id_of (url r) k /\
  (isHttps r = true <-> Text.begins_with "https://" (url r)).
Proof.
  destruct (table_record_origin _ _ _ Hr) as [He Hin].
  destruct (entry_of_inv _ _ _ He) as (Hm & Hs & _ & Hsec). done.
Qed.

Lemma table_records_consistent_witness :
  let r := {| isHttps := false; url := "http://cdn.example/x/jquery.min.js" |} in
  In (resolve (url r)) [resolve "http://cdn.example/x/jquery.min.js"; load "jquery"] /\
  Text.matches_http (url r) /\
  Text.short_id_of (url r) "jquery" /\
  (isHttps r = true <-> Text.begins_with "https://" (url r)).
Proof.
  apply (table_records_consistent
           [resolve "http://cdn.example/x/jquery.min.js"; load "jquery"] "jquery").
  vm_compute. reflexivity.
Defined.

(** X2: every request the plugin puts on the network during a pass goes to
    a URL that a [resolve] call of the pass was given as its specifier; the
    URL matches [^https?://], the request was asked for by a [load] call
    for the short identifier of that URL, and it goes through the HTTPS
    client exactly when the URL begins with [https://]. *)
Theorem requests_come_from_resolved_specifiers cs q
  (Hq : In q (wire (after http fresh cs))) :
  In (resolve (target q)) cs /\
  Text.matches_http (target q) /\
  (exists id, In (load id) cs /\ Text.short_id_of (target q) id) /\
  (via q = https_client <-> Text.begins_with "https://" (target q)).
Proof.
  destruct (wire_origin _ _ _ Hq) as [[]|(cs1 & id & cs2 & r & -> & Hr & ->)].
  destruct (table_record_origin _ _ _ Hr) as [He Hin].
  destruct (entry_of_inv _ _ _ He) as (Hm & Hs & _ & Hsec).
  destruct (request_for_via r) as [Hvia _]. simpl target.
  split; [|split; [|split]].
  - apply in_or_app. by left.
  - done.
  - exists id. split; [|done]. apply in_or_app. right. by left.
  - by rewrite Hvia.
Qed.

Lemma requests_come_from_resolved_specifiers_witness :
  let cs := [resolve "https://example.com/lib/util.js"; load "util"] in
  let q := {| via := https_client; target := "https://example.com/lib/util.js" |} in
  In (resolve (target q)) cs /\
  Text.matches_http (target q) /\
  (exists id, In (load id) cs /\ Text.short_id_of (target q) id) /\
  (via q = https_client <-> Text.begins_with "https://" (target q)).
Proof.
  apply (requests_come_from_resolved_specifiers
           [resolve "https://example.com/lib/util.js"; load "util"]).
  vm_compute. left. reflexivity.
Defined.

(** X3: an identifier [resolveId] returns contains neither ['/'] nor
    ['.'], so it is not itself a specifier the plugin takes: [resolveId]
    on it returns nothing and changes nothing. *)
Theorem returned_ids_are_not_resolved_again e spec id
  (Hid : fst (resolveId e spec) = Some id) :
  Text.occurs "/" id = false /\
  Text.occurs "." id = false /\
  forall e', resolveId e' id = (None, e').
Proof.
  rewrite resolveId_entry in Hid.
  destruct (entry_of spec) as [[k r]|] eqn:He; [|discriminate].
  simpl in Hid. injection Hid as ->.
  destruct (entry_of_inv _ _ _ He) as (_ & (seg & [Hseg _] & [Hdot Hcut]) & _).
  assert (Text.occurs "/" id = false) as Hslash.
  { destruct Hcut as [->|[rest ->]]; [done |].
    rewrite occurs_append in Hseg. by apply orb_false_iff in Hseg as [? _]. }
  split; [done |]. split; [done |].
  intros e'. rewrite resolveId_entry, entry_of_other; [done |].
  intros Hm. apply matches_has_slash in Hm. congruence.
Qed.

Lemma returned_ids_are_not_resolved_again_witness :
  Text.occurs "/" "util" = false /\
  Text.occurs "." "util" = false /\
  forall e', resolveId e' "util" = (None, e').
Proof.
  apply (returned_ids_are_not_resolved_again fresh "https://example.com/lib/util.js").
  reflexivity.
Defined.

Lemma table_ignores_loads_from e e' cs :
  urls e = urls e' ->
  urls (after http e cs) = urls (after http e' (List.filter is_resolve cs)) /\
  List.filter is_resolved (answers http e cs)
  = answers http e' (List.filter is_resolve cs).
Proof.
  revert e e'. induction cs as [|c cs IH]; intros e e' Hurls; [done |].
  destruct c as [spec|id]; simpl List.filter.
  - rewrite !after_cons, !answers_cons, !step_resolve.
    destruct (entry_of spec) as [[k r]|]; simpl.
    + destruct (IH {| urls := <[k := r]> (urls e); wire := wire e |}
                   {| urls := <[k := r]> (urls e'); wire := wire e' |})
        as [-> ->]; [simpl; by rewrite Hurls | done].
    + by destruct (IH e e' Hurls) as [-> ->].
  - rewrite after_cons, answers_cons, step_load.
    destruct (urls e !! id) as [r|]; simpl; by apply IH.
Qed.

(** X4: the Resolution Table depends on the [resolve] calls of a pass
    only: dropping every [load] call from the pass gives the same table,
    and the [resolve] calls get the same answers. *)
Theorem table_ignores_loads e cs :
  urls (after http e cs) = urls (after http e (List.filter is_resolve cs)) /\
  List.filter is_resolved (answers http e cs)
  = answers http e (List.filter is_resolve cs).
Proof. by apply table_ignores_loads_from. Qed.

End ResolverInvariants.

(** ** Facts about [split] and [join] *)

Section SplitFacts.

Implicit Types (s out rest : string) (c : ascii).

Lemma append_cancel_l s out rest : s +:+ out = s +:+ rest -> out = rest.
Proof. induction s as [|a s IH]; simpl; [done |]. intros [=]. by apply IH. Qed.

(** [split] cuts at the first separator and goes on with what follows. *)
Lemma split_unfold s c :
  exists out,
    Text.truncated_at_first c s out /\
    ((s = out /\ Js.split s c = [out]) \/
     exists rest, s = out +:+ String c rest /\ Js.split s c = out :: Js.split rest c).
Proof.
  induction s as [|a s (out & [Hno Hcut] & Hsplit)].
  - exists "". split; [split; [done | by left] | by left].
  - simpl Js.split. destruct (Ascii.eqb_spec a c) as [->|Hne].
    + exists "". split; [split; [done | right; by exists s] |].
      right. by exists s.
    + exists (String a out). split.
      * split; [simpl; rewrite Hno, orb_false_r; by apply Ascii.eqb_neq |].
        destruct Hcut as [->|[rest ->]]; [by left | right; by exists rest].
      * destruct Hsplit as [[-> ->]|(rest & -> & ->)]; [by left |].
        right. by exists rest.
Qed.

Lemma join_split s c : Js.join (Js.split s c) (String c "") = s.
Proof.
  induction s as [|a s IH]; [done |].
  simpl Js.split. destruct (Ascii.eqb_spec a c) as [->|Hne].
  - pose proof (split_not_nil s c) as Hnil.
    destruct (Js.split s c) as [|piece pieces]; [done |].
    simpl. simpl in IH. by rewrite IH.
  - pose proof (split_not_nil s c) as Hnil.
    destruct (Js.split s c) as [|piece pieces]; [done |].
    destruct pieces as [|piece' pieces]; simpl in *; by rewrite IH.
Qed.

Lemma split_pieces_clean s c :
  Forall (fun piece => Text.occurs c piece = false) (Js.split s c).
Proof.
  induction s as [|a s IH]; simpl; [by constructor |].
  destruct (Ascii.eqb_spec a c) as [->|Hne]; [by constructor |].
  pose proof (split_not_nil s c) as Hnil.
  destruct (Js.split s c) as [|piece pieces]; [done |].
  inversion IH as [|? ? Hpiece Hpieces]; subst. constructor; [|done].
  simpl. rewrite Hpiece, orb_false_r. by apply Ascii.eqb_neq.
Qed.

Lemma parts_of_spec chunk :
  chunk_parts chunk (fst (parts_of chunk)) (snd (parts_of chunk)).
Proof.
  unfold parts_of, chunk_parts.
  destruct (split_unfold chunk "=") as (name & Hname & [[-> ->]|(rest & -> & ->)]).
  - simpl. split; [done | by left].
  - destruct (split_unfold rest "=") as (value & Hvalue & Hrest).
    assert (exists more, Js.split rest "=" = value :: more) as [more ->].
    { destruct Hrest as [[_ ->]|(r & _ & ->)]; by eexists. }
    simpl. split; [done |]. right. by exists rest, value.
Qed.

Lemma chunk_parts_unique chunk name1 entry1 name2 entry2 :
  chunk_parts chunk name1 entry1 -> chunk_parts chunk name2 entry2 ->
  name1 = name2 /\ entry1 = entry2.
Proof.
  intros [Hn1 He1] [Hn2 He2].
  assert (name1 = name2) as <- by by eapply truncated_unique.
  split; [done |].
  destruct Hn1 as [Hclean _].
  destruct He1 as [[-> ->]|(rest1 & v1 & E1 & Hv1 & ->)];
    destruct He2 as [[E2 ->]|(rest2 & v2 & E2 & Hv2 & ->)].
  - done.
  - exfalso. rewrite E2, occurs_append in Hclean. simpl in Hclean.
    by rewrite orb_true_r in Hclean.
  - exfalso. rewrite E1 in E2. rewrite <- E2, occurs_append in Hclean.
    simpl in Hclean. by rewrite orb_true_r in Hclean.
  - rewrite E1 in E2. apply append_cancel_l in E2.
    injection E2 as ->. f_equal. by eapply truncated_unique.
Qed.

End SplitFacts.

(** ** Properties of the options [compile] builds ([src/index.js]) *)

Section CompileProperties.

Context `{Numbers}.
Variable extname : string -> string.
Variable isDirectory : string -> option bool.
Variable cli_flags : Flags.t.
Variable pkg : Pkg.t.

Abbreviation compile := (IndexJs.compile extname isDirectory cli_flags pkg).
Abbreviation set_chunk :=
  (fun (chunks : object (list (option string))) (chunk : string) =>
     Obj.set (fst (parts_of chunk)) [snd (parts_of chunk)] chunks).

Implicit Types (source outFile outFormat name chunk : string).

Lemma truthy_inv (v : option string) :
  Js.truthy v = true -> exists s, v = Some s /\ s <> "" /\ Js.or_default v "" = s.
Proof. destruct v as [[|a s]|]; simpl; try done. intros _. by eexists. Qed.

Lemma falsy_or_default (v : option string) :
  Js.truthy v = false -> Js.or_default v "" = "".
Proof. by destruct v as [[|a s]|]. Qed.

(** X5: the [external] option is the fourteen Node built-ins when the
    format is [cjs] (none otherwise), followed by the items of the
    [--external] flag ([-e] when [--external] is missing or empty): the
    comma-free pieces which, joined by commas, give the flag back.  A
    missing or empty flag adds no item. *)
Theorem externals_of_compile source outFile outFormat :
  let list := Js.or (Flags.external cli_flags) (Flags.e cli_flags) in
  exists items,
    ReadOptions.external (readOptions (compile source outFile outFormat))
    = ((if String.eqb outFormat "cjs" then IndexJs.nodeExternals else []) ++ items)%list /\
    Js.join items "," = Js.or_default list "" /\
    Forall (fun item => Text.occurs "," item = false) items /\
    (items = [] <-> Js.truthy list = false).
Proof.
  intros list. unfold IndexJs.compile. simpl ReadOptions.external.
  fold list. destruct list as [[|a s]|] eqn:Hlist.
  - exists []. by rewrite app_nil_r.
  - exists (Js.split (String a s) ","). split; [done |].
    split; [apply join_split |]. split; [apply split_pieces_clean |].
    split; [|done]. intros Hnil. by destruct (split_not_nil (String a s) ",").
  - exists []. by rewrite app_nil_r.
Qed.

Lemma fold_set_chunk_ext (l : list string) (t : object (list (option string))) :
  fold_left
    (fun chunks chunk =>
       match Js.split chunk "=" with
       | [] => Obj.set "undefined" [None] chunks
       | [name] => Obj.set name [None] chunks
       | name :: entry :: _ => Obj.set name [Some entry] chunks
       end) l t
  = fold_left set_chunk l t.
Proof.
  revert t. induction l as [|chunk l IH]; intros t; [done |].
  simpl. rewrite IH. f_equal. unfold parts_of.
  by destruct (Js.split chunk "=") as [|name [|entry more]].
Qed.

Lemma set_chunk_lookup (t : object (list (option string))) chunk name :
  own (set_chunk t chunk) !! name =
  if decide (fst (parts_of chunk) = name /\ name <> "__proto__")
  then Some [snd (parts_of chunk)]
  else own t !! name.
Proof.
  unfold Obj.set. destruct (String.eqb_spec (fst (parts_of chunk)) "__proto__") as [E|E].
  - simpl. case_decide as Hd; [|done]. destruct Hd as [<- Hne]. done.
  - simpl. case_decide as Hd.
    + destruct Hd as [<- _]. apply lookup_insert_eq.
    + apply lookup_insert_ne. intros Heq. apply Hd. split; [done | congruence].
Qed.

Lemma fold_set_chunk_frame (l : list string) (t : object (list (option string))) name :
  (forall chunk, In chunk l -> fst (parts_of chunk) <> name) ->
  own (fold_left set_chunk l t) !! name = own t !! name.
Proof.
  revert t. induction l as [|chunk l IH]; intros t Hl; [done |].
  simpl. rewrite IH by (intros c Hc; apply Hl; by right).
  rewrite set_chunk_lookup. case_decide as Hd; [|done].
  destruct Hd as [Hd _]. exfalso. apply (Hl chunk); [by left | done].
Qed.

Lemma fold_set_chunk_keys (l : list string) (t : object (list (option string))) name :
  is_Some (own (fold_left set_chunk l t) !! name) <->
  is_Some (own t !! name) \/
  (name <> "__proto__" /\ exists chunk, In chunk l /\ fst (parts_of chunk) = name).
Proof.
  revert t. induction l as [|chunk l IH]; intros t.
  - simpl. split; [by left | intros [?|(_ & c & [] & _)]; done].
  - simpl fold_left. rewrite IH, set_chunk_lookup. split.
    + intros [Hs|(Hne & c & Hc & Hn)].
      * case_decide as Hd; [|by left]. destruct Hd as [Hd Hne].
        right. split; [done |]. exists chunk. split; [by left | done].
      * right. split; [done |]. exists c. split; [by right | done].
    + intros [Hs|(Hne & c & [<-|Hc] & Hn)].
      * left. case_decide; [by eexists | done].
      * left. rewrite decide_True by done. by eexists.
      * right. split; [done |]. by exists c.
Qed.


Lemma writeOptions_closed source outFile outFormat :
  writeOptions (compile source outFile outFormat) =
  let is_dir := match isDirectory outFile with Some true => true | _ => false end in
  {| WriteOptions.format := outFormat;
     WriteOptions.file := if is_dir then None else Some outFile;
     WriteOptions.dir := if is_dir then Some outFile else None;
     WriteOptions.exports := Js.or_default (Flags.exports cli_flags) "named";
     WriteOptions.name :=
       if Js.truthy (Flags.name cli_flags) then Flags.name cli_flags
       else if String.eqb outFormat "umd" then Pkg.name pkg
       else None;
     WriteOptions.chunkFileNames :=
       if is_dir
       then match ReadOptions.manualChunks
                    (readOptions (compile source outFile outFormat)) with
            | Some _ => Some "[name].js"
            | None => None
            end
       else None |}.
Proof.
  unfold IndexJs.compile. simpl. unfold Js.or.
  destruct (Js.truthy (Flags.name cli_flags)); simpl;
    destruct (String.eqb outFormat "umd"); simpl;
    by destruct (isDirectory outFile) as [[|]|].
Qed.

(** X7: the options for writing always carry the format asked for and a
    non-empty [exports] mode (the flag, or [named]).  Exactly one of [file]
    and [dir] is set, and it is [outFile]: [dir] when [outFile] is an
    existing directory, [file] otherwise, also when [lstatSync] throws.
    [chunkFileNames] is set exactly when [dir] is and there are manual
    chunks.  [name] is the [--name] flag when that is given, the package
    name for a [umd] bundle without the flag, and missing otherwise. *)
Theorem write_options_of_compile source outFile outFormat :
  let a := compile source outFile outFormat in
  let w := writeOptions a in
  WriteOptions.format w = outFormat /\
  WriteOptions.exports w <> "" /\
  WriteOptions.exports w = Js.or_default (Flags.exports cli_flags) "named" /\
  (if decide (isDirectory outFile = Some true)
   then WriteOptions.file w = None /\ WriteOptions.dir w = Some outFile
   else WriteOptions.file w = Some outFile /\ WriteOptions.dir w = None) /\
  (is_Some (WriteOptions.chunkFileNames w) <->
   is_Some (WriteOptions.dir w) /\
   is_Some (ReadOptions.manualChunks (readOptions a))) /\
  WriteOptions.name w =
  (if Js.truthy (Flags.name cli_flags) then Flags.name cli_flags
   else if String.eqb outFormat "umd" then Pkg.name pkg
   else None).
Proof.
  intros a w. subst a w. rewrite writeOptions_closed.
  unfold IndexJs.compile. simpl readOptions. simpl ReadOptions.manualChunks.
  set (chunks := match Flags.chunks cli_flags with
                 | Some (String _ _ as l) => Some _
                 | _ => None
                 end).
  simpl. split; [done |]. split.
  { by destruct (Flags.exports cli_flags) as [[|c s]|]. }
  split; [done |].
  destruct (isDirectory outFile) as [[|]|] eqn:Hdir.
  - rewrite decide_True by done. split; [done |]. split; [|done]. split.
    + intros Hs. split; [by eexists |]. by destruct chunks; [eexists | destruct Hs].
    + intros [_ [t ->]]. by eexists.
  - rewrite decide_False by done. split; [done |]. split; [|done].
    split; [intros [? [=]] | intros [[? [=]] _]].
  - rewrite decide_False by done. split; [done |]. split; [|done].
    split; [intros [? [=]] | intros [[? [=]] _]].
Qed.

(** X8: the plugin pipeline always begins with the same six plugins,
    the resolver plugin [http] last among them, so after the Node
    resolver; after them come the TypeScript plugin, exactly when the
    extension of the source is [.ts] or [.tsx], and then [terser], exactly
    when [--minify] is on.  The [http] plugin appears once. *)
Theorem pipeline_of_compile source outFile outFormat :
  exists typescript terser,
    ReadOptions.plugins (readOptions (compile source outFile outFormat))
    = ([json_plugin;
        nodeResolve_plugin true true (Some (String.eqb outFormat "es"));
        commonjs_plugin true; globals_plugin; builtins_plugin; http_plugin]
       ++ typescript ++ terser)%list /\
    (typescript = [] \/ exists options, typescript = [typescript_plugin options]) /\
    (typescript <> [] <-> extname source = ".ts" \/ extname source = ".tsx") /\
    (terser = [] \/ exists options, terser = [terser_plugin options]) /\
    (terser <> [] <-> Flags.minify cli_flags = true).
Proof.
  exists (match IndexJs.tsc extname source outFormat with
          | Some options => [typescript_plugin options]
          | None => []
          end),
         (match IndexJs.minify cli_flags pkg outFormat with
          | Some options => [terser_plugin options]
          | None => []
          end).
  split.
  { unfold IndexJs.compile. simpl ReadOptions.plugins. unfold Js.filter_Boolean.
    by destruct (IndexJs.tsc extname source outFormat),
                (IndexJs.minify cli_flags pkg outFormat). }
  unfold IndexJs.tsc, IndexJs.minify.
  split; [|split; [|split]].
  - destruct (_ || _); [right; by eexists | by left].
  - destruct (String.eqb_spec (extname source) ".ts") as [Hts|Hts];
      destruct (String.eqb_spec (extname source) ".tsx") as [Htsx|Htsx]; simpl;
      split; try done; try tauto.
  - destruct (Flags.minify cli_flags); simpl; [right; by eexists | by left].
  - by destruct (Flags.minify cli_flags).
Qed.

End CompileProperties.

(** ** Properties of [compile] in [src/unnamed/part_000] *)

Section Part000Properties.

Context `{Numbers}.
Variable extname : string -> string.
Variable isDirectory : string -> option bool.
Variable cli_flags : Flags.t.
Variable pkg : Pkg.t.

Abbreviation compile := (Part000.compile extname isDirectory cli_flags pkg).

Lemma part000_tsc_string entry : Part000.tsc extname (Some entry) = returns None.
Proof.
  unfold Part000.tsc.
  destruct (String.eqb_spec (extname entry) ".ts") as [Hts|Hts]; [|done].
  destruct (String.eqb_spec (extname entry) ".tsx") as [Htsx|Htsx]; [|done].
  rewrite Hts in Htsx. discriminate.
Qed.


(** X10: in the second copy, when [outFile] is an existing directory the
    bundle is not directed to [outFile]: [file] is removed and [dir] is
    whatever the [--out] flag holds, so without that flag the options name
    neither a file nor a directory. *)
Theorem part000_directory_target outFile outFormat a
  (Hcompile : compile outFile outFormat = returns a)
  (Hdir : isDirectory outFile = Some true) :
  WriteOptions.file (writeOptions a) = None /\
  WriteOptions.dir (writeOptions a) = Flags.out cli_flags.
Proof.
  unfold Part000.compile in Hcompile.
  destruct (Part000.tsc extname (Pkg.source pkg)); [|discriminate].
  injection Hcompile as <-. simpl. rewrite Hdir. simpl.
  by destruct (Js.truthy (Flags.name cli_flags) || String.eqb outFormat "umd").
Qed.

End Part000Properties.

Lemma part000_directory_target_witness :
  let pkg :=
    {| Pkg.name := Some "lib"; Pkg.source := Some "src/index.js";
       Pkg.main := Some "dist"; Pkg.module := None; Pkg.unpkg := None;
       Pkg.browser := None; Pkg.minify := None |} in
  exists a,
    Part000.compile (H := integers) (fun _ => ".js") (fun _ => Some true)
      no_flags pkg "dist" "cjs" = returns a /\
    WriteOptions.file (writeOptions a) = None /\
    WriteOptions.dir (writeOptions a) = None.
Proof.
  intros pkg. eexists. split; [reflexivity |].
  eapply (part000_directory_target (H := integers) (fun _ => ".js") (fun _ => Some true)
            no_flags pkg "dist" "cjs"); reflexivity.
Defined.

(** ** Properties of [run] ([src/index.js]) *)

Section RunProperties.

Context `{Numbers}.
Variable extname : string -> string.
Variable isDirectory : string -> option bool.
Variable cli_flags : Flags.t.
Variable cli_input : list string.
Variable pkg : Pkg.t.
Variable fulfilled : action -> bool.

Abbreviation compile := (IndexJs.compile extname isDirectory cli_flags pkg).
Abbreviation run :=
  (IndexJs.run extname isDirectory cli_flags cli_input pkg fulfilled).
Abbreviation chain :=
  (fun before rest => fold_right (IndexJs.await fulfilled) rest before).

Implicit Types (planned before : list action) (a : action).

Lemma if_truthy_chain outFile job rest :
  IndexJs.if_truthy fulfilled outFile job rest = chain (job_for outFile job) rest.
Proof. by destruct outFile as [[|c s]|]. Qed.

Lemma chain_app before planned rest :
  chain (before ++ planned)%list rest = chain before (chain planned rest).
Proof. apply fold_right_app. Qed.

Lemma await_fulfilled a rest :
  fulfilled a = true ->
  IndexJs.await fulfilled a rest = (a :: fst rest, snd rest).
Proof. unfold IndexJs.await. by intros ->. Qed.

Lemma await_rejected a rest :
  fulfilled a = false -> IndexJs.await fulfilled a rest = ([a], rejected).
Proof. unfold IndexJs.await. by intros ->. Qed.

Lemma chain_prefix planned :
  exists skipped, planned = (fst (chain planned ([], finished)) ++ skipped)%list.
Proof.
  induction planned as [|a planned [skipped IH]]; [by exists [] |].
  simpl. destruct (fulfilled a) eqn:Ha.
  - rewrite await_fulfilled by done. exists skipped. simpl. by f_equal.
  - rewrite await_rejected by done. by exists planned.
Qed.

Lemma chain_finished planned :
  snd (chain planned ([], finished)) = finished <->
  Forall (fun a => fulfilled a = true) planned.
Proof.
  induction planned as [|a planned IH]; simpl.
  - split; [by constructor | done].
  - destruct (fulfilled a) eqn:Ha.
    + rewrite await_fulfilled by done. simpl.
      rewrite IH. split; [by constructor | by inversion 1].
    + rewrite await_rejected by done. simpl.
      split; [done | inversion 1; congruence].
Qed.

Lemma chain_finished_all planned :
  snd (chain planned ([], finished)) = finished ->
  fst (chain planned ([], finished)) = planned.
Proof.
  induction planned as [|a planned IH]; simpl; [done |].
  destruct (fulfilled a) eqn:Ha.
  - rewrite await_fulfilled by done. simpl. intros Hf. by rewrite IH.
  - by rewrite await_rejected by done.
Qed.

Lemma chain_rejected planned :
  snd (chain planned ([], finished)) = rejected <->
  exists before a,
    fst (chain planned ([], finished)) = (before ++ [a])%list /\
    fulfilled a = false /\
    Forall (fun a => fulfilled a = true) before.
Proof.
  induction planned as [|a planned IH]; simpl.
  - split; [done | intros (before & a & Hnil & _)]. by destruct before.
  - destruct (fulfilled a) eqn:Ha.
    + rewrite await_fulfilled by done. simpl. rewrite IH. split.
      * intros (before & b & Heq & Hb & Hbefore).
        exists (a :: before), b. split; [simpl; by f_equal |].
        split; [done | by constructor].
      * intros (before & b & Heq & Hb & Hbefore).
        destruct before as [|a' before]; simpl in Heq.
        { injection Heq as -> Hnil. congruence. }
        injection Heq as <- Heq. exists before, b. split; [done |].
        split; [done | by inversion Hbefore].
    + rewrite await_rejected by done. simpl. split; [|done].
      intros _. exists [], a. split; [done |]. split; [done | constructor].
Qed.

Lemma chain_not_help planned : snd (chain planned ([], finished)) <> showed_help.
Proof.
  induction planned as [|a planned IH]; simpl; [done |].
  destruct (fulfilled a) eqn:Ha.
  - by rewrite await_fulfilled by done.
  - by rewrite await_rejected by done.
Qed.

(** X11: [run] shows the help text exactly when the command line names no
    input and the package file has no (or an empty) [source]; it then
    calls [compile] not once. *)
Theorem run_shows_help :
  (snd run = showed_help <-> cli_input = [] /\ Js.truthy (Pkg.source pkg) = false) /\
  (snd run = showed_help -> fst run = []).
Proof.
  unfold IndexJs.run.
  destruct cli_input as [|input inputs]; [destruct (Pkg.source pkg) as [[|c s]|] |].
  - by split.
  - simpl Js.truthy. rewrite !if_truthy_chain, <- !chain_app.
    split; [split; [|by intros [_ [=]]] |]; intros Hhelp; by apply chain_not_help in Hhelp.
  - by split.
  - unfold IndexJs.await. destruct (fulfilled _); simpl; split; try done;
      split; try done; by intros [[=] _].
Qed.

(** X12: with inputs on the command line [run] calls [compile] exactly
    once, whatever the package file says: the source is the inputs joined
    by commas, the target is [--output], else [-o], else [baked.js], and the
    format is [--format], else [-f], else [cjs].  [run] ends as that call
    ends. *)
Theorem run_with_inputs (Hinput : cli_input <> []) :
  let outFile :=
    Js.or_default (Js.or (Flags.output cli_flags) (Flags.o cli_flags)) "baked.js" in
  let outFormat :=
    Js.or_default (Js.or (Flags.format cli_flags) (Flags.f cli_flags)) "cjs" in
  let a := compile (Js.join cli_input ",") outFile outFormat in
  fst run = [a] /\
  snd run = (if fulfilled a then finished else rejected) /\
  outFile <> "" /\ outFormat <> "".
Proof.
  intros outFile outFormat a. subst outFile outFormat a. unfold IndexJs.run.
  destruct cli_input as [|input inputs]; [done |].
  unfold IndexJs.await. split; [by destruct (fulfilled _) |].
  split; [by destruct (fulfilled _) |].
  split.
  - by destruct (Js.or (Flags.output cli_flags) (Flags.o cli_flags)) as [[|c s]|].
  - by destruct (Js.or (Flags.format cli_flags) (Flags.f cli_flags)) as [[|c s]|].
Qed.


End RunProperties.

Lemma run_with_inputs_witness :
  let extname := fun _ : string => ".js" in
  let isDirectory := fun _ : string => @None bool in
  let pkg := no_fields (H := integers) in
  let fulfilled := fun _ : action (H := integers) => true in
  let input := ["src/a.js"; "src/b.js"] in
  let a := IndexJs.compile extname isDirectory no_flags pkg "src/a.js,src/b.js" "baked.js" "cjs" in
  fst (IndexJs.run extname isDirectory no_flags input pkg fulfilled) = [a] /\
  snd (IndexJs.run extname isDirectory no_flags input pkg fulfilled)
  = (if fulfilled a then finished else rejected) /\
  "baked.js" <> "" /\ "cjs" <> "".
Proof.
  apply (run_with_inputs (H := integers) (fun _ => ".js") (fun _ => None) no_flags
           ["src/a.js"; "src/b.js"] no_fields (fun _ => true)).
  discriminate.
Defined.


Example run_stops_at_rejected_module :
  let pkg :=
    {| Pkg.name := Some "lib"; Pkg.source := Some "src/index.js";
       Pkg.main := Some "dist/lib.js"; Pkg.module := Some "dist/lib.mjs";
       Pkg.unpkg := Some "dist/lib.umd.js"; Pkg.browser := None;
       Pkg.minify := @None (json (H := integers)) |} in
  let fulfilled :=
    fun a : action (H := integers) =>
      negb (String.eqb (WriteOptions.format (writeOptions a)) "es") in
  let result := IndexJs.run (fun _ => ".js") (fun _ => None) no_flags [] pkg fulfilled in
  map (fun a => (WriteOptions.file (writeOptions a), WriteOptions.format (writeOptions a)))
      (fst result)
  = [(Some "dist/lib.js", "cjs"); (Some "dist/lib.mjs", "es")] /\
  snd result = rejected.
Proof. vm_compute. split; reflexivity. Qed.

(** ** Properties of [minify] and of [resolveUrls] ([src/index.js]) *)

Section MinifyProperties.

Context `{Numbers}.
Variable cli_flags : Flags.t.
Variable pkg : Pkg.t.

Abbreviation minify := (IndexJs.minify cli_flags pkg).

(** X14: with [--minify] on and a package file whose [minify.compress] is
    an object, every option of that object reaches [terser], and the three
    defaults [keep_infinity], [pure_getters] and [passes] apply only where
    the package does not set them.  A member named [__proto__] never
    becomes an option: it replaces the prototype of the options object when
    its value is an object, an array or [null], and is dropped otherwise. *)
Theorem minify_compress_overrides outFormat members compress
  (Hon : Flags.minify cli_flags = true)
  (Hpkg : Pkg.minify pkg = Some (JObj members))
  (Hcompress : members !! "compress" = Some (JObj compress)) :
  exists options,
    minify outFormat = Some options /\
    (forall key, key <> "__proto__" ->
       own (TerserOptions.compress options) !! key =
       match compress !! key with
       | Some value => Some value
       | None =>
           ({[ "keep_infinity" := JBool true; "pure_getters" := JBool true;
               "passes" := JNum (number_of_Z 10) ]} : gmap string json) !! key
       end) /\
    own (TerserOptions.compress options) !! "__proto__" = None /\
    proto (TerserOptions.compress options) =
    match compress !! "__proto__" with
    | Some value => if Obj.is_prototype value then Some value else None
    | None => None
    end.
Proof.
  unfold IndexJs.minify. rewrite Hon. simpl negb. cbv iota.
  eexists. split; [reflexivity |].
  simpl TerserOptions.compress. rewrite Hpkg. simpl Obj.or_empty.
  simpl Obj.get. rewrite Hcompress. simpl Obj.or_empty.
  unfold Obj.assign. simpl Obj.enumerable. simpl own. simpl proto.
  split; [|split].
  - intros key Hkey. rewrite lookup_union, lookup_delete_ne by done.
    destruct (compress !! key) as [value|]; [|by rewrite (left_id_L None _)].
    by destruct (_ !! key).
  - rewrite lookup_union, lookup_delete_eq. by rewrite (left_id_L None _).
  - done.
Qed.

(** X15: with [--minify] on and a package file that gives neither
    [minify.compress] nor [minify.mangle] (no [minify] field, one that is
    not an object, or an object without these members), [terser] gets
    exactly the built-in options: the three compress defaults, an empty
    [mangle], and [toplevel] exactly for the formats [cjs] and [es]. *)
Theorem minify_defaults outFormat
  (Hon : Flags.minify cli_flags = true)
  (Hpkg : forall members,
      Pkg.minify pkg = Some (JObj members) ->
      members !! "compress" = None /\ members !! "mangle" = None) :
  minify outFormat =
  Some {| TerserOptions.sourcemap := true;
          TerserOptions.compress :=
            {| own := {[ "keep_infinity" := JBool true; "pure_getters" := JBool true;
                         "passes" := JNum (number_of_Z 10) ]};
               proto := None |};
          TerserOptions.warnings := true;
          TerserOptions.ecma := number_of_Z 9;
          TerserOptions.toplevel :=
            String.eqb outFormat "cjs" || String.eqb outFormat "es";
          TerserOptions.mangle := {| own := ∅; proto := None |} |}.
Proof.
  unfold IndexJs.minify. rewrite Hon. simpl negb. cbv iota.
  assert (Obj.get (Obj.or_empty (Pkg.minify pkg)) "compress" = None /\
          Obj.get (Obj.or_empty (Pkg.minify pkg)) "mangle" = None) as [-> ->].
  { destruct (Pkg.minify pkg) as [[|b|n|s|items|members]|] eqn:Hm; simpl.
    - done.
    - by destruct b.
    - by destruct (number_truthy n).
    - by destruct (negb (String.eqb s "")).
    - done.
    - by apply Hpkg.
    - done. }
  simpl Obj.or_empty. unfold Obj.assign, Obj.empty. simpl.
  rewrite delete_empty, !(left_id_L ∅ _). done.
Qed.

(** X16: the URL [resolveUrls] makes of a package name and a version ends
    in [/v] and the first character of the version.  Given to the resolver
    plugin of the same file, every such URL gets that ending as its short
    identifier, whatever the package: two packages with the same first
    version character cannot both be loaded.  ([resolveUrls] is not in the
    pipeline: its call is commented out.) *)
Theorem pika_urls_share_short_ids e name c rest
  (Hslash : c <> "/"%char) (Hdot : c <> "."%char) :
  match IndexJs.resolveUrls "es" with
  | unpkg_plugin transform _ =>
      fst (IndexJs.plugin.resolveId e (transform name (String c rest)))
      = Some (String "v" (String c ""))
  | _ => False
  end.
Proof.
  pose (u := "https://cdn.pika.dev/" +:+ name +:+ "/v" +:+ String c "").
  change (fst (IndexJs.plugin.resolveId e u) = Some (String "v" (String c ""))).
  assert (Text.matches_http u) as Hm.
  { right. by exists ("cdn.pika.dev/" +:+ name +:+ "/v" +:+ String c ""). }
  destruct (entry_of_matching _ Hm) as (k & secure & He & Hk & _).
  rewrite resolveId_entry, He. simpl. f_equal.
  apply (short_id_unique u); [done |].
  assert (Text.occurs "/" (String "v" (String c "")) = false) as Hno1.
  { simpl. rewrite orb_false_r. by apply Ascii.eqb_neq. }
  assert (Text.occurs "." (String "v" (String c "")) = false) as Hno2.
  { simpl. rewrite orb_false_r. by apply Ascii.eqb_neq. }
  exists (String "v" (String c "")). split.
  - split; [done |]. exists ("https://cdn.pika.dev/" +:+ name).
    subst u. by rewrite <- append_assoc.
  - split; [done | by left].
Qed.

End MinifyProperties.

Lemma minify_compress_overrides_witness :
  let compress : gmap string (json (H := integers)) := {[ "passes" := JNum (H := integers) 3%Z ]} in
  let members : gmap string (json (H := integers)) := {[ "compress" := JObj compress ]} in
  let flags :=
    {| Flags.name := None; Flags.external := None; Flags.e := None;
       Flags.minify := true; Flags.watch := false; Flags.chunks := None;
       Flags.exports := None; Flags.output := None; Flags.o := None;
       Flags.out := None; Flags.format := None; Flags.f := None |} in
  let pkg :=
    {| Pkg.name := Some "lib"; Pkg.source := Some "src/index.js";
       Pkg.main := Some "dist/lib.js"; Pkg.module := None; Pkg.unpkg := None;
       Pkg.browser := None; Pkg.minify := Some (JObj members) |} in
  exists options,
    IndexJs.minify flags pkg "cjs" = Some options /\
    (forall key, key <> "__proto__" ->
       own (TerserOptions.compress options) !! key =
       match compress !! key with
       | Some value => Some value
       | None =>
           ({[ "keep_infinity" := JBool true; "pure_getters" := JBool true;
               "passes" := JNum (number_of_Z 10) ]} : gmap string json) !! key
       end) /\
    own (TerserOptions.compress options) !! "__proto__" = None /\
    proto (TerserOptions.compress options) =
    match compress !! "__proto__" with
    | Some value => if Obj.is_prototype value then Some value else None
    | None => None
    end.
Proof.
  intros compress members flags pkg.
  apply (minify_compress_overrides (H := integers) flags pkg "cjs" members compress);
    reflexivity.
Defined.

Lemma minify_defaults_witness :
  let flags :=
    {| Flags.name := None; Flags.external := None; Flags.e := None;
       Flags.minify := true; Flags.watch := false; Flags.chunks := None;
       Flags.exports := None; Flags.output := None; Flags.o := None;
       Flags.out := None; Flags.format := None; Flags.f := None |} in
  IndexJs.minify (H := integers) flags no_fields "umd" =
  Some {| TerserOptions.sourcemap := true;
          TerserOptions.compress :=
            {| own := {[ "keep_infinity" := JBool true; "pure_getters" := JBool true;
                         "passes" := JNum (number_of_Z 10) ]};
               proto := None |};
          TerserOptions.warnings := true;
          TerserOptions.ecma := number_of_Z 9;
          TerserOptions.toplevel := String.eqb "umd" "cjs" || String.eqb "umd" "es";
          TerserOptions.mangle := {| own := ∅; proto := None |} |}.
Proof.
  intros flags.
  apply (minify_defaults (H := integers) flags no_fields "umd"); [reflexivity |].
  intros members Hm. discriminate Hm.
Defined.

Lemma pika_urls_share_short_ids_witness :
  match IndexJs.resolveUrls (H := integers) "es" with
  | unpkg_plugin transform _ =>
      fst (IndexJs.plugin.resolveId fresh (transform "preact" "10.4.1")) = Some "v1"
  | _ => False
  end.
Proof.
  apply (pika_urls_share_short_ids (H := integers) fresh "preact" "1"%char "0.4.1");
    discriminate.
Defined.

(** ** The options on small inputs *)

Example externals_for_node :
  let flags :=
    {| Flags.name := None; Flags.external := Some "react,lodash/fp"; Flags.e := None;
       Flags.minify := false; Flags.watch := false; Flags.chunks := None;
       Flags.exports := None; Flags.output := None; Flags.o := None;
       Flags.out := None; Flags.format := None; Flags.f := None |} in
  ReadOptions.external
    (readOptions (IndexJs.compile (H := integers) (fun _ => ".js") (fun _ => None)
                    flags no_fields "src/index.js" "dist/lib.js" "cjs"))
  = (IndexJs.nodeExternals ++ ["react"; "lodash/fp"])%list.
Proof. reflexivity. Qed.

Example chunks_last_entry_wins :
  let flags :=
    {| Flags.name := None; Flags.external := None; Flags.e := None;
       Flags.minify := false; Flags.watch := false;
       Flags.chunks := Some "vendor=react,app,vendor=preact=x,__proto__=y";
       Flags.exports := None; Flags.output := None; Flags.o := None;
       Flags.out := None; Flags.format := None; Flags.f := None |} in
  match ReadOptions.manualChunks
          (readOptions (IndexJs.compile (H := integers) (fun _ => ".js") (fun _ => None)
                          flags no_fields "src/index.js" "dist" "es")) with
  | Some table =>
      own table !! "vendor" = Some [Some "preact"] /\
      own table !! "app" = Some [None] /\
      own table !! "__proto__" = None /\
      proto table = Some [Some "y"]
  | None => False
  end.
Proof. vm_compute. repeat split. Qed.

Example typescript_in_both_copies :
  let extname := fun _ : string => ".ts" in
  let pkg :=
    {| Pkg.name := Some "lib"; Pkg.source := Some "src/index.ts";
       Pkg.main := Some "dist/lib.js"; Pkg.module := None; Pkg.unpkg := None;
       Pkg.browser := None; Pkg.minify := @None (json (H := integers)) |} in
  length (ReadOptions.plugins
            (readOptions (IndexJs.compile extname (fun _ => None) no_flags pkg
                            "src/index.ts" "dist/lib.js" "cjs"))) = 7%nat /\
  match Part000.compile extname (fun _ => None) no_flags pkg "dist/lib.js" "cjs" with
  | returns a => length (ReadOptions.plugins (readOptions a)) = 6%nat
  | throws => False
  end.
Proof. vm_compute. split; reflexivity. Qed.
